(** * A shallow embedding of [ensemblAPI.py]

    The module defines one class, [EnsemblRestClient], whose method
    [perform_rest_action] performs a throttled HTTP GET and whose other
    methods are thin wrappers around it, plus the static, pure
    [format_region].

    Conventions of the embedding.
    - A Python [str] is represented by its UTF-8 encoding, a Rocq [string]
      (a sequence of bytes).  All literals of the module are ASCII.
    - Python exceptions are values of [Exn]; a computation that may raise
      returns an [Outcome].
    - The interpreter state the module touches (the client object, the
      clock, the dictionaries passed as headers, the messages on standard
      error and the requests handed to [urllib]) is threaded explicitly.
    - Library functions that are not part of the module ([json.loads],
      [float], float arithmetic, [str] of a list) are parameters. *)

From Stdlib Require Import ZArith QArith Qcanon String Ascii DecimalString.
From stdpp Require Import base strings gmap list.

Set Warnings "-register-all".

Open Scope Z_scope.
Open Scope string_scope.
Open Scope list_scope.

(** ** Exceptions *)

Inductive Exn :=
| TypeError
| AttributeError
| IndexError
| KeyError
| ValueError
| OverflowError
| UnicodeDecodeError
| JSONDecodeError
| RecursionError
| URLError (reason : string).

Inductive Outcome (A : Type) :=
| Ret (a : A)
| Raise (e : Exn).
Arguments Ret {A} a.
Arguments Raise {A} e.

Module Exc.
Definition bind {A B} (m : Outcome A) (f : A -> Outcome B) : Outcome B :=
  match m with
  | Ret a => f a
  | Raise e => Raise e
  end.

(** [try: body  except <cls>: handler], where [handles] recognises the
    exception class of the [except] clause. *)
Definition try_except {A} (body : Outcome A) (handles : Exn -> bool)
    (handler : Outcome A) : Outcome A :=
  match body with
  | Ret a => Ret a
  | Raise e => if handles e then handler else Raise e
  end.
End Exc.

Definition is_TypeError (e : Exn) : bool :=
  match e with TypeError => true | _ => false end.

(** ** Strings *)

Definition py_str_int (z : Z) : string := NilZero.string_of_int (Z.to_int z).

Definition char_in_range (lo hi c : ascii) : bool :=
  (N_of_ascii lo <=? N_of_ascii c)%N && (N_of_ascii c <=? N_of_ascii hi)%N.

Definition is_digit (c : ascii) : bool := char_in_range "0" "9" c.
Definition is_upper (c : ascii) : bool := char_in_range "A" "Z" c.
Definition is_lower (c : ascii) : bool := char_in_range "a" "z" c.

(** ASCII lower-casing, as used for header names by [email.message]. *)
Definition ascii_lower (c : ascii) : ascii :=
  if is_upper c then ascii_of_N (N_of_ascii c + 32) else c.

Fixpoint str_lower (s : string) : string :=
  match s with
  | EmptyString => EmptyString
  | String c s' => String (ascii_lower c) (str_lower s')
  end.

(** *** [urllib.parse.quote_plus] and [urllib.parse.urlencode] *)

Definition hex_digit (n : N) : ascii :=
  if (n <? 10)%N then ascii_of_N (48 + n) else ascii_of_N (55 + n).

(** The characters [quote] never escapes: letters, digits and [_.-~]. *)
Definition always_safe (c : ascii) : bool :=
  is_upper c || is_lower c || is_digit c
  || Ascii.eqb c "_" || Ascii.eqb c "." || Ascii.eqb c "-" || Ascii.eqb c "~".

Definition quote_char (c : ascii) : string :=
  if always_safe c then String c EmptyString
  else if Ascii.eqb c " " then "+"
  else String "%" (String (hex_digit (N_of_ascii c / 16))
                  (String (hex_digit (N_of_ascii c mod 16)) EmptyString)).

Fixpoint quote_plus (s : string) : string :=
  match s with
  | EmptyString => EmptyString
  | String c s' => quote_char c +:+ quote_plus s'
  end.

(** A value of a query parameter: a string or a sequence of strings. *)
Inductive ParamValue :=
| PStr (s : string)
| PSeq (xs : list string).

Definition Params := list (string * ParamValue).

Section Urlencode.
(** [str(v)] for a list [v] of strings (Python's [repr] of the list). *)
Variable py_str_seq : list string -> string.

Definition urlencode_pair (doseq : bool) (kv : string * ParamValue) : list string :=
  let k := quote_plus kv.1 in
  match kv.2 with
  | PStr v => [k +:+ "=" +:+ quote_plus v]
  | PSeq xs =>
      if doseq then map (fun elt => k +:+ "=" +:+ quote_plus elt) xs
      else [k +:+ "=" +:+ quote_plus (py_str_seq xs)]
  end.

Definition urlencode (query : Params) (doseq : bool) : string :=
  String.concat "&" (concat (map (urlencode_pair doseq) query)).
End Urlencode.

(** *** UTF-8 decoding of a response body

    [bytes.decode('utf-8')] succeeds exactly on well-formed UTF-8; since a
    [str] is represented by its encoding, the decoded text is the input. *)

Definition byte_in (lo hi : N) (c : ascii) : bool :=
  (lo <=? N_of_ascii c)%N && (N_of_ascii c <=? hi)%N.

Fixpoint utf8_wf (s : string) : bool :=
  match s with
  | EmptyString => true
  | String b0 r0 =>
      if byte_in 0 127 b0 then utf8_wf r0
      else match r0 with
      | EmptyString => false
      | String b1 r1 =>
          if byte_in 194 223 b0 then byte_in 128 191 b1 && utf8_wf r1
          else match r1 with
          | EmptyString => false
          | String b2 r2 =>
              if byte_in 224 224 b0
              then byte_in 160 191 b1 && byte_in 128 191 b2 && utf8_wf r2
              else if byte_in 225 236 b0 || byte_in 238 239 b0
              then byte_in 128 191 b1 && byte_in 128 191 b2 && utf8_wf r2
              else if byte_in 237 237 b0
              then byte_in 128 159 b1 && byte_in 128 191 b2 && utf8_wf r2
              else match r2 with
              | EmptyString => false
              | String b3 r3 =>
                  let tail := byte_in 128 191 b2 && byte_in 128 191 b3 && utf8_wf r3 in
                  if byte_in 240 240 b0 then byte_in 144 191 b1 && tail
                  else if byte_in 241 243 b0 then byte_in 128 191 b1 && tail
                  else if byte_in 244 244 b0 then byte_in 128 143 b1 && tail
                  else false
              end
          end
      end
  end.

Definition decode_utf8 (body : string) : Outcome string :=
  if utf8_wf body then Ret body else Raise UnicodeDecodeError.

(** ** Regular expressions: a backtracking matcher in the style of [re]

    [rmatch r s k] tries to match [r] at the start of [s] and passes the
    rest of the input to the continuation [k]; alternatives are tried left
    to right and a star is greedy, so the first success is the match a
    backtracking engine reports.  An iteration of a star has to consume
    input, which is what [re] does for the character-class bodies used
    here. *)

Inductive regex :=
| Eps
| Cls (p : ascii -> bool)
| Cat (r1 r2 : regex)
| Alt (r1 r2 : regex)
| Star (r : regex).

(** The iterations of a star whose body is matched by [body]: as many as
    possible first, each consuming input; [n] bounds their number and is
    the length of the text. *)
Fixpoint star_loop {A} (body : string -> (string -> option A) -> option A)
    (k : string -> option A) (n : nat) (s : string) : option A :=
  match n with
  | O => k s
  | S n' =>
      match body s (fun s' =>
              if (String.length s' <? String.length s)%nat
              then star_loop body k n' s' else None) with
      | Some x => Some x
      | None => k s
      end
  end.

Fixpoint rmatch {A} (r : regex) (s : string) (k : string -> option A) : option A :=
  match r with
  | Eps => k s
  | Cls p =>
      match s with
      | String c s' => if p c then k s' else None
      | EmptyString => None
      end
  | Cat r1 r2 => rmatch r1 s (fun s' => rmatch r2 s' k)
  | Alt r1 r2 =>
      match rmatch r1 s k with
      | Some x => Some x
      | None => rmatch r2 s k
      end
  | Star r1 => star_loop (rmatch r1) k (String.length s) s
  end.

(** [re.match]: the text matched at the start of [s]. *)
Definition re_match (r : regex) (s : string) : option string :=
  match rmatch r s Some with
  | Some rest => Some (substring 0 (String.length s - String.length rest) s)
  | None => None
  end.

(** [re.search]: the match at the leftmost position that has one. *)
Fixpoint re_search (r : regex) (s : string) : option string :=
  match re_match r s with
  | Some m => Some m
  | None =>
      match s with
      | EmptyString => None
      | String _ s' => re_search r s'
      end
  end.

(** What the matcher implements: the language of a regular expression. *)
Inductive matches : regex -> string -> Prop :=
| MEps : matches Eps ""
| MCls p c : p c = true -> matches (Cls p) (String c "")
| MCat r1 r2 s1 s2 : matches r1 s1 -> matches r2 s2 -> matches (Cat r1 r2) (s1 +:+ s2)
| MAltL r1 r2 s : matches r1 s -> matches (Alt r1 r2) s
| MAltR r1 r2 s : matches r2 s -> matches (Alt r1 r2) s
| MStar0 r : matches (Star r) ""
| MStarS r s1 s2 :
    s1 <> "" -> matches r s1 -> matches (Star r) s2 -> matches (Star r) (s1 +:+ s2).

(** *** Indexing a string *)

(** The number of bytes of the UTF-8 sequence that starts with [c]. *)
Definition utf8_width (c : ascii) : nat :=
  if byte_in 0 127 c then 1%nat
  else if byte_in 192 223 c then 2%nat
  else if byte_in 224 239 c then 3%nat
  else 4%nat.

(** [s[i]] for a string: the [i]-th character. *)
Fixpoint py_str_item (i : nat) (s : string) : option string :=
  match s with
  | EmptyString => None
  | String c _ =>
      let w := utf8_width c in
      match i with
      | O => Some (substring 0 w s)
      | S i' => py_str_item i' (substring w (String.length s - w) s)
      end
  end.

(** ** [format_region] *)

Inductive PyVal :=
| VStr (s : string)
| VInt (z : Z).

(** The argument of [format_region]: a string or a sequence. *)
Inductive Region :=
| RStr (s : string)
| RSeq (xs : list PyVal).

Definition is_XY (c : ascii) : bool := Ascii.eqb c "X" || Ascii.eqb c "Y".

(** The pattern of [format_region]: [([XY]|D):D-D], where [D] stands for a
    greedy run of decimal digits, possibly empty. *)
Definition region_re : regex :=
  Cat (Alt (Cls is_XY) (Star (Cls is_digit)))
 (Cat (Cls (Ascii.eqb ":"))
 (Cat (Star (Cls is_digit))
 (Cat (Cls (Ascii.eqb "-"))
      (Star (Cls is_digit))))).

(** [re.search(pattern, region)]: a [TypeError] unless [region] is a string. *)
Definition py_re_search (r : regex) (region : Region) : Outcome (option string) :=
  match region with
  | RStr s => Ret (re_search r s)
  | RSeq _ => Raise TypeError
  end.

(** [m.group()]: the match object is [None] when nothing matched. *)
Definition group (m : option string) : Outcome string :=
  match m with
  | Some text => Ret text
  | None => Raise AttributeError
  end.

(** [region[i]] *)
Definition region_item (region : Region) (i : nat) : Outcome PyVal :=
  match region with
  | RSeq xs =>
      match xs !! i with
      | Some x => Ret x
      | None => Raise IndexError
      end
  | RStr s =>
      match py_str_item i s with
      | Some c => Ret (VStr c)
      | None => Raise IndexError
      end
  end.

(** [x + s] for a string [s]. *)
Definition py_add_str (x : PyVal) (s : string) : Outcome string :=
  match x with
  | VStr a => Ret (a +:+ s)
  | VInt _ => Raise TypeError
  end.

Definition py_str (x : PyVal) : string :=
  match x with
  | VStr s => s
  | VInt z => py_str_int z
  end.

Definition format_region (region : Region) : Outcome string :=
  Exc.try_except
    (Exc.bind (py_re_search region_re region) group)
    is_TypeError
    (Exc.bind (region_item region 0) (fun r0 =>
     Exc.bind (py_add_str r0 ":") (fun acc =>
     Exc.bind (region_item region 1) (fun r1 =>
     let acc := acc +:+ py_str r1 +:+ "-" in
     Exc.bind (region_item region 2) (fun r2 =>
     Ret (acc +:+ py_str r2)))))).

(** ** Floats

    [time.time()], [time.sleep], [float(retry) + 1.0] and [1 - delta] work
    on Python floats.  The embedding is parametric in the float type and its
    operations.

    [time.sleep] converts its argument to a count of nanoseconds before it
    looks at the sign: a NaN is refused with a [ValueError], a value beyond
    the range of that count (an infinity, or a magnitude above some
    9.2e9 seconds, negative values included) with an [OverflowError], and
    only then a negative value with a [ValueError].  [fnan] and [fhuge] are
    the two tests of the conversion.

    The laws are about the length [1 - d] that the rate limit sleeps when
    [d < 1]: it is not negative and it is a number, which hold for IEEE
    doubles and for exact arithmetic; and it is within the range of
    [time.sleep], which holds as long as the checkpoint is not further
    ahead of the clock than that range (some 292 years).  Nothing is
    assumed of the lengths computed from a [Retry-After] header. *)

Class PyFloat (F : Type) := {
  fzero : F;
  fone : F;
  fadd : F -> F -> F;
  fsub : F -> F -> F;
  fltb : F -> F -> bool;
  (** [bool(x)] *)
  ftruth : F -> bool;
  (** [float(s)]; [None] stands for the [ValueError] of an unparsable text. *)
  float_of_str : string -> option F;
  (** [math.isnan(x)] *)
  fnan : F -> bool;
  (** [x] is beyond the range of [time.sleep] *)
  fhuge : F -> bool;
  fsub_one_nonneg : forall d, fltb d fone = true -> fltb (fsub fone d) fzero = false;
  fsub_one_number : forall d, fltb d fone = true -> fnan (fsub fone d) = false;
  fsub_one_in_range : forall d, fltb d fone = true -> fhuge (fsub fone d) = false
}.

(** What [time.sleep(d)] raises, if anything, in the order of its checks. *)
Definition sleep_error {F : Type} `{PyFloat F} (d : F) : option Exn :=
  if fnan d then Some ValueError
  else if fhuge d then Some OverflowError
  else if fltb d fzero then Some ValueError
  else None.

(** ** Decoded JSON documents *)

Inductive Json (F : Type) :=
| JNull
| JBool (b : bool)
| JInt (z : Z)
| JFloat (x : F)
| JStr (s : string)
| JArr (xs : list (Json F))
| JObj (kvs : list (string * Json F)).
Arguments JNull {F}.
Arguments JBool {F} b.
Arguments JInt {F} z.
Arguments JFloat {F} x.
Arguments JStr {F} s.
Arguments JArr {F} xs.
Arguments JObj {F} kvs.

Fixpoint assoc_get {V} (k : string) (kvs : list (string * V)) : option V :=
  match kvs with
  | [] => None
  | (k', v) :: rest => if String.eqb k' k then Some v else assoc_get k rest
  end.

Section JsonOps.
Context {F : Type} `{PyFloat F}.

(** Truth value testing: [if v:]. *)
Definition truthy (v : Json F) : bool :=
  match v with
  | JNull => false
  | JBool b => b
  | JInt z => negb (z =? 0)%Z
  | JFloat x => ftruth x
  | JStr s => negb (String.eqb s "")
  | JArr xs => match xs with [] => false | _ => true end
  | JObj kvs => match kvs with [] => false | _ => true end
  end.

(** [v[i]] for a non-negative integer [i]. *)
Definition getitem_int (v : Json F) (i : nat) : Outcome (Json F) :=
  match v with
  | JArr xs =>
      match xs !! i with
      | Some x => Ret x
      | None => Raise IndexError
      end
  | JStr s =>
      match py_str_item i s with
      | Some c => Ret (JStr c)
      | None => Raise IndexError
      end
  | JObj _ => Raise KeyError
  | _ => Raise TypeError
  end.

(** [v[k]] for a string [k]. *)
Definition getitem_str (v : Json F) (k : string) : Outcome (Json F) :=
  match v with
  | JObj kvs =>
      match assoc_get k kvs with
      | Some x => Ret x
      | None => Raise KeyError
      end
  | _ => Raise TypeError
  end.
End JsonOps.

(** ** The interpreter state *)

Definition loc := nat.

Record Request := {
  url : string;
  req_headers : gmap string string
}.

(** What [urlopen] does with a request. *)
Inductive HttpResult (F : Type) :=
| HttpOk (elapsed : F) (body : string)
| HttpError (elapsed : F) (code : Z) (reason : string) (headers : list (string * string))
| HttpFail (elapsed : F) (e : Exn).
Arguments HttpOk {F} elapsed body.
Arguments HttpError {F} elapsed code reason headers.
Arguments HttpFail {F} elapsed e.

(** The two places that call [time.sleep]: the client-side rate limit
    (line 38) and the wait after a 429 answer (line 56). *)
Inductive SleepSite := Throttle | Backoff.

Inductive Event (F : Type) :=
| ESleep (site : SleepSite) (d : F)
| ERequest (r : Request)
| EStderr (msg : string).
Arguments ESleep {F} site d.
Arguments ERequest {F} r.
Arguments EStderr {F} msg.

(** The fields of an [EnsemblRestClient] instance. *)
Record Client (F : Type) := {
  server : string;
  reqs_per_sec : Z;
  req_count : Z;
  last_req : F
}.
Arguments server {F} c.
Arguments reqs_per_sec {F} c.
Arguments req_count {F} c.
Arguments last_req {F} c.

Record State (F : Type) := {
  self : Client F;
  (** the reading of [time.time()] *)
  now : F;
  (** the dictionaries that header arguments refer to *)
  heap : gmap loc (gmap string string);
  (** what the client did, in order: sleeps, requests passed to [urlopen]
      and writes to [sys.stderr] *)
  trace : list (Event F)
}.
Arguments self {F} s.
Arguments now {F} s.
Arguments heap {F} s.
Arguments trace {F} s.

Definition M (F A : Type) : Type := State F -> Outcome A * State F.

Module St.
Definition ret {F A} (a : A) : M F A := fun st => (Ret a, st).
Definition raise {F A} (e : Exn) : M F A := fun st => (Raise e, st).
Definition bind {F A B} (m : M F A) (f : A -> M F B) : M F B :=
  fun st =>
    match m st with
    | (Ret a, st') => f a st'
    | (Raise e, st') => (Raise e, st')
    end.
Definition lift {F A} (o : Outcome A) : M F A := fun st => (o, st).
Definition get {F} : M F (State F) := fun st => (Ret st, st).
Definition put {F} (st : State F) : M F unit := fun _ => (Ret tt, st).
End St.

Declare Scope py_scope.
Delimit Scope py_scope with py.
Notation "x <- c1 ;; c2" := (St.bind c1 (fun x => c2))
  (at level 100, c1 at next level, right associativity) : py_scope.
Notation "c1 ;; c2" := (St.bind c1 (fun _ => c2))
  (at level 100, right associativity) : py_scope.

Definition requests_of {F} (t : list (Event F)) : list Request :=
  omap (fun e => match e with ERequest r => Some r | _ => None end) t.

Definition throttle_sleeps {F} (t : list (Event F)) : list F :=
  omap (fun e => match e with ESleep Throttle d => Some d | _ => None end) t.

(** Header lookup in an [HTTPMessage] is case-insensitive. *)
Definition header_get (name : string) (hs : list (string * string)) : option string :=
  snd <$> List.find (fun kv => String.eqb (str_lower kv.1) (str_lower name)) hs.

Definition set_self {F} (c : Client F) (st : State F) : State F :=
  {| self := c; now := now st; heap := heap st; trace := trace st |}.
Definition set_now {F} (t : F) (st : State F) : State F :=
  {| self := self st; now := t; heap := heap st; trace := trace st |}.
Definition set_heap {F} (h : gmap loc (gmap string string)) (st : State F) : State F :=
  {| self := self st; now := now st; heap := h; trace := trace st |}.
Definition log {F} (e : Event F) (st : State F) : State F :=
  {| self := self st; now := now st; heap := heap st; trace := trace st ++ [e] |}.

Definition set_req_count {F} (n : Z) (c : Client F) : Client F :=
  {| server := server c; reqs_per_sec := reqs_per_sec c;
     req_count := n; last_req := last_req c |}.
Definition set_last_req {F} (t : F) (c : Client F) : Client F :=
  {| server := server c; reqs_per_sec := reqs_per_sec c;
     req_count := req_count c; last_req := t |}.

(** [EnsemblRestClient(server, reqs_per_sec)] *)
Definition new_client {F} `{PyFloat F} (server : string) (reqs_per_sec : Z) : Client F :=
  {| server := server; reqs_per_sec := reqs_per_sec; req_count := 0; last_req := fzero |}.

Definition default_server : string := "http://rest.ensembl.org/".
Definition default_reqs_per_sec : Z := 15.

(** ** The client *)

Section EnsemblRestClient.
Context {F : Type} `{PyFloat F}.

(** [json.loads]; [None] stands for a [JSONDecodeError]. *)
Variable json_loads : string -> option (Json F).
(** [str] of a list of strings, see [urlencode]. *)
Variable py_str_seq : list string -> string.
(** The server (or the mocked transport): its answer to a request, given
    the requests it has received before. *)
Variable transport : list Request -> Request -> HttpResult F.

Local Open Scope py_scope.

(** *** Primitive operations *)

Definition get_self : M F (Client F) := fun st => (Ret (self st), st).
Definition modify_self (f : Client F -> Client F) : M F unit :=
  fun st => (Ret tt, set_self (f (self st)) st).

(** [time.time()] *)
Definition time_time : M F F := fun st => (Ret (now st), st).

(** [time.sleep(d)]: the length is checked first ([sleep_error]); a length
    that passes is slept, which moves the clock. *)
Definition time_sleep (site : SleepSite) (d : F) : M F unit :=
  fun st =>
    match sleep_error d with
    | Some e => (Raise e, st)
    | None => (Ret tt, log (ESleep site d) (set_now (fadd (now st) d) st))
    end.

(** [sys.stderr.write(msg)] *)
Definition stderr_write (msg : string) : M F unit :=
  fun st => (Ret tt, log (EStderr msg) st).

(** A fresh, empty dictionary: [{}]. *)
Definition new_dict : M F loc :=
  fun st =>
    let l := fresh (dom (heap st)) in
    (Ret l, set_heap (<[l := ∅]> (heap st)) st).

Definition deref (l : loc) : M F (gmap string string) :=
  fun st =>
    match heap st !! l with
    | Some d => (Ret d, st)
    | None => (Raise TypeError, st)
    end.

Definition dict_set (l : loc) (k v : string) : M F unit :=
  d <- deref l ;;
  fun st => (Ret tt, set_heap (<[l := <[k := v]> d]> (heap st)) st).

Definition elapsed_of (res : HttpResult F) : F :=
  match res with
  | HttpOk t _ | HttpError t _ _ _ | HttpFail t _ => t
  end.

(** [urllib.request.urlopen(Request(url, headers=hdrs))] *)
Definition urlopen (target : string) (hdrs : loc) : M F (HttpResult F) :=
  d <- deref hdrs ;;
  fun st =>
    let req := {| url := target; req_headers := d |} in
    let res := transport (requests_of (trace st)) req in
    (Ret res, set_now (fadd (now st) (elapsed_of res)) (log (ERequest req) st)).

Definition params_truthy (params : option Params) : bool :=
  match params with
  | Some (_ :: _) => true
  | _ => false
  end.

(** *** [perform_rest_action] *)

(** Lines 35-40: the client-side rate limit. *)
Definition throttle : M F unit :=
  c <- get_self ;;
  if (reqs_per_sec c <=? req_count c)%Z then
    t <- time_time ;;
    let delta := fsub t (last_req c) in
    (if fltb delta fone then time_sleep Throttle (fsub fone delta) else St.ret tt) ;;
    t' <- time_time ;;
    modify_self (set_last_req t') ;;
    modify_self (set_req_count 0)
  else St.ret tt.

Definition failure_message (endpoint : string) (code : Z) (reason : string) : string :=
  "Request failed for " +:+ endpoint +:+ ": Status code: " +:+ py_str_int code
    +:+ " Reason: " +:+ reason +:+ String "010" "".

(** Lines 23-27: the header dictionary, created when absent, and its
    default content type, written into the dictionary itself. *)
Definition prepare_headers (hdrs : option loc) : M F loc :=
  hdrs <- match hdrs with
          | None => new_dict
          | Some l => St.ret l
          end ;;
  d <- deref hdrs ;;
  match d !! "Content-Type" with
  | None => dict_set hdrs "Content-Type" "application/json"
  | Some _ => St.ret tt
  end ;;
  St.ret hdrs.

(** Lines 29-30: the query string. *)
Definition with_query (endpoint : string) (params : option Params) (doseq : bool)
    : string :=
  if params_truthy params
  then endpoint +:+ "?" +:+ urlencode py_str_seq (default [] params) doseq
  else endpoint.

(** Lines 42-61: the request and the handling of its failure; [again] is
    the method itself, for the call of line 57. *)
Definition attempt (again : string -> loc -> M F (Json F)) (endpoint : string)
    (hdrs : loc) : M F (Json F) :=
  c <- get_self ;;
  res <- urlopen (server c +:+ endpoint) hdrs ;;
  match res with
  | HttpOk _ body =>
      content <- St.lift (decode_utf8 body) ;;
      data <- (if negb (String.eqb content "")
               then match json_loads content with
                    | Some v => St.ret v
                    | None => St.raise JSONDecodeError
                    end
               else St.ret JNull) ;;
      modify_self (fun c => set_req_count (req_count c + 1) c) ;;
      St.ret data
  | HttpError _ code reason headers =>
      (if (code =? 429)%Z then
         match header_get "Retry-After" headers with
         | Some retry =>
             match float_of_str retry with
             | Some r =>
                 time_sleep Backoff (fadd r fone) ;;
                 again endpoint hdrs ;;
                 St.ret tt
             | None => St.raise ValueError
             end
         | None => St.ret tt
         end
       else stderr_write (failure_message endpoint code reason)) ;;
      St.ret JNull
  | HttpFail _ e => St.raise e
  end.

(** [fuel] is the recursion depth left to the interpreter: the method
    calls itself on a 429 answer, and Python ends a recursion that is too
    deep with a [RecursionError]. *)
Fixpoint perform_rest_action (fuel : nat) (endpoint : string) (hdrs : option loc)
    (params : option Params) (doseq : bool) : M F (Json F) :=
  match fuel with
  | O => St.raise RecursionError
  | S fuel' =>
      hdrs <- prepare_headers hdrs ;;
      let endpoint := with_query endpoint params doseq in
      throttle ;;
      attempt (fun endpoint hdrs =>
                 perform_rest_action fuel' endpoint (Some hdrs) None false)
              endpoint hdrs
  end.

(** A series of calls, one after the other; an exception ends it. *)
Record Call := {
  call_endpoint : string;
  call_hdrs : option loc;
  call_params : option Params;
  call_doseq : bool
}.

Fixpoint run_calls (fuel : nat) (calls : list Call) : M F (list (Json F)) :=
  match calls with
  | [] => St.ret []
  | c :: rest =>
      data <- perform_rest_action fuel (call_endpoint c) (call_hdrs c)
                (call_params c) (call_doseq c) ;;
      more <- run_calls fuel rest ;;
      St.ret (data :: more)
  end.

(** *** The query methods *)

Definition get_ensembl_id (fuel : nat) (species symbol : string)
    (only_stable_id : bool) : M F (Json F) :=
  genes <- perform_rest_action fuel
             ("/xrefs/symbol/" +:+ species +:+ "/" +:+ symbol)
             None (Some [("object_type", PStr "gene")]) false ;;
  if truthy genes then
    if only_stable_id then
      g0 <- St.lift (getitem_int genes 0) ;;
      stable_id <- St.lift (getitem_str g0 "id") ;;
      St.ret stable_id
    else St.ret genes
  else St.ret JNull.

Definition get_ensembl_info (fuel : nat) (identifier : string) (expand : bool)
    : M F (Json F) :=
  let ext := if expand
             then "/lookup/id/" +:+ identifier +:+ "?expand=1"
             else "/lookup/id/" +:+ identifier +:+ "?" in
  info <- perform_rest_action fuel ext None None false ;;
  if truthy info then St.ret info else St.ret JNull.

(** [features or ['gene']] *)
Definition features_or_default (features : option (list string)) : list string :=
  match features with
  | Some (f :: fs) => f :: fs
  | _ => ["gene"]
  end.

Definition get_overlap (fuel : nat) (species : string) (region : Region)
    (features : option (list string)) : M F (Json F) :=
  let features := features_or_default features in
  region <- St.lift (format_region region) ;;
  info <- perform_rest_action fuel
            ("/overlap/region/" +:+ species +:+ "/" +:+ region)
            None (Some [("feature", PSeq features)]) true ;;
  if truthy info then St.ret info else St.ret JNull.

Definition default_species : string := "human".
Definition default_region : Region := RStr "7:140424943-140624564".

End EnsemblRestClient.

(** ** [get_variants] and the line the script prints for a variant *)

Section Variants.
Context {F : Type} `{PyFloat F}.
Variable json_loads : string -> option (Json F).
Variable py_str_seq : list string -> string.
Variable transport : list Request -> Request -> HttpResult F.
(** [str] of a float, of a list and of a dictionary. *)
Variable py_str_other : Json F -> string.

Local Open Scope py_scope.

(** ['{0}'.format(v)] and a replacement field [{name}], both [str(v)]. *)
Definition py_format (v : Json F) : string :=
  match v with
  | JStr s => s
  | JInt z => py_str_int z
  | JBool true => "True"
  | JBool false => "False"
  | JNull => "None"
  | _ => py_str_other v
  end.

Definition get_variants (fuel : nat) (species symbol : string) : M F (Json F) :=
  stable_id <- get_ensembl_id json_loads py_str_seq transport fuel species symbol true ;;
  if truthy stable_id then
    variants <- perform_rest_action json_loads py_str_seq transport fuel
                  ("/overlap/id/" +:+ py_format stable_id)
                  None (Some [("feature", PStr "variation")]) false ;;
    St.ret variants
  else St.ret JNull.

(** A replacement field [{name}] of [str.format] called with [**v]. *)
Definition format_field (kvs : list (string * Json F)) (name : string) : Outcome string :=
  match assoc_get name kvs with
  | Some x => Ret (py_format x)
  | None => Raise KeyError
  end.

(** Line 182, the text printed for a variant [v]: the template
    [{seq_region_name}:{start}-{end}:{strand} ==> {id} ({consequence_type})]
    formatted with [**v]. *)
Definition variant_line (v : Json F) : Outcome string :=
  match v with
  | JObj kvs =>
      Exc.bind (format_field kvs "seq_region_name") (fun name =>
      Exc.bind (format_field kvs "start") (fun start =>
      Exc.bind (format_field kvs "end") (fun stop =>
      Exc.bind (format_field kvs "strand") (fun strand =>
      Exc.bind (format_field kvs "id") (fun id =>
      Exc.bind (format_field kvs "consequence_type") (fun consequence =>
      Ret (name +:+ ":" +:+ start +:+ "-" +:+ stop +:+ ":" +:+ strand
             +:+ " ==> " +:+ id +:+ " (" +:+ consequence +:+ ")")))))))
  | _ => Raise TypeError
  end.

End Variants.

(** * The vocabulary of the properties *)

(** [sub] occurs in [s]. *)
Definition occurs_in (sub s : string) : Prop :=
  exists pre post, s = pre +:+ sub +:+ post.

(** Completeness: when some prefix is in the language and the continuation
    accepts what follows it, the matcher succeeds (possibly with another
    prefix, which it prefers).  For a star this holds for every bound that
    is at least the length of the text. *)
Definition accepts_after {A} (r : regex) (s1 : string) : Prop :=
  forall s2 (k : string -> option A), is_Some (k s2) ->
    is_Some (rmatch r (s1 +:+ s2) k) /\
    match r with
    | Star r0 => forall n, (String.length (s1 +:+ s2) <= n)%nat ->
                   is_Some (star_loop (rmatch r0) k n (s1 +:+ s2))
    | _ => True
    end.

(** An error of the kind the specification announces for a malformed
    region: a type error or a format (value) error. *)
Definition is_type_or_format_error (e : Exn) : Prop :=
  e = TypeError \/ e = ValueError.

(** A run of decimal digits that is not empty. *)
Definition digit_run : regex := Cat (Cls is_digit) (Star (Cls is_digit)).

(** The pattern the specification expects in a region string,
    [<chrom-or-X/Y>:<start>-<end>]: an [X], a [Y] or a number, a colon, a
    number, a dash and a number.  It differs from [region_re], the pattern
    of the code, in that no number is empty. *)
Definition spec_region_re : regex :=
  Cat (Alt (Cls is_XY) digit_run)
 (Cat (Cls (Ascii.eqb ":"))
 (Cat digit_run
 (Cat (Cls (Ascii.eqb "-"))
      digit_run))).

Fixpoint str_forallb (p : ascii -> bool) (s : string) : bool :=
  match s with
  | EmptyString => true
  | String c s' => p c && str_forallb p s'
  end.

(** A name made of characters that [quote_plus] leaves alone, as are all
    feature names of the documented vocabulary. *)
Definition plain_name (s : string) : bool := str_forallb always_safe s.

(** The lengths of all sleeps of a trace, whatever their place. *)
Definition all_sleeps {F} (t : list (Event F)) : list F :=
  omap (fun e => match e with ESleep _ d => Some d | _ => None end) t.

Section Vocabulary.
Context {F : Type} `{PyFloat F}.
Variable transport : list Request -> Request -> HttpResult F.

(** A header argument the method can use: absent, or a live dictionary. *)
Definition hdrs_ok (st : State F) (hdrs : option loc) : Prop :=
  match hdrs with
  | Some l => is_Some (heap st !! l)
  | None => True
  end.

(** The dictionary after lines 26-27. *)
Definition with_content_type (d : gmap string string) : gmap string string :=
  match d !! "Content-Type" with
  | None => <["Content-Type" := "application/json"]> d
  | Some _ => d
  end.

(** [delta], the time since the last checkpoint. *)
Definition since_checkpoint (st : State F) : F := fsub (now st) (last_req (self st)).

(** [1 - delta], the length of the sleep of a client that reached its
    limit [delta < 1] seconds after the last checkpoint. *)
Definition remaining (st : State F) : F := fsub fone (since_checkpoint st).

(** The state after lines 39-40, with the clock at [t]. *)
Definition checkpoint (t : F) (st : State F) : State F :=
  set_self (set_req_count 0 (set_last_req t (self st))) (set_now t st).

(** The request of an attempt, the answer it gets and the state after
    [urlopen]. *)
Definition request_of (endpoint : string) (d : gmap string string) (st : State F)
    : Request :=
  {| url := server (self st) +:+ endpoint; req_headers := d |}.

Definition answer_to (endpoint : string) (d : gmap string string) (st : State F)
    : HttpResult F :=
  transport (requests_of (trace st)) (request_of endpoint d st).

Definition after_urlopen (endpoint : string) (d : gmap string string) (st : State F)
    : State F :=
  set_now (fadd (now st) (elapsed_of (answer_to endpoint d st)))
          (log (ERequest (request_of endpoint d st)) st).

(** The state after [self.req_count += 1]. *)
Definition count_request (st : State F) : State F :=
  set_self (set_req_count (req_count (self st) + 1) (self st)) st.

(** The state after a sleep of length [d]. *)
Definition after_sleep (site : SleepSite) (d : F) (st : State F) : State F :=
  log (ESleep site d) (set_now (fadd (now st) d) st).

(** The events of the rate limit in a call that starts in [st]. *)
Definition throttle_events (st : State F) : list (Event F) :=
  if (reqs_per_sec (self st) <=? req_count (self st))%Z
  then if fltb (since_checkpoint st) fone
       then [ESleep Throttle (remaining st)] else []
  else [].

(** The configuration of the client is the same in both states. *)
Definition same_config (st st' : State F) : Prop :=
  server (self st') = server (self st)
  /\ reqs_per_sec (self st') = reqs_per_sec (self st).

(** From [st] to [st'] the rate limit did not sleep, the checkpoint stayed
    and at most one request was counted. *)
Definition within_limit (st st' : State F) : Prop :=
  throttle_sleeps (trace st') = throttle_sleeps (trace st)
  /\ last_req (self st') = last_req (self st)
  /\ reqs_per_sec (self st') = reqs_per_sec (self st)
  /\ req_count (self st) <= req_count (self st') <= req_count (self st) + 1.

(** The server never answers 429. *)
Definition never_busy : Prop :=
  forall history req t code reason headers,
    transport history req = HttpError t code reason headers -> code <> 429.

(** [if info: return info] and [return None] after a call. *)
Definition or_none (m : M F (Json F)) : M F (Json F) :=
  fun st =>
    (match (m st).1 with
     | Ret v => Ret (if truthy v then v else JNull)
     | Raise e => Raise e
     end, (m st).2).

End Vocabulary.

(** *** Texts *)

Definition digits (s : string) : bool := str_forallb is_digit s.

Definition no_leading_digit (s : string) : bool :=
  match s with
  | String c _ => negb (is_digit c)
  | EmptyString => true
  end.

Definition no_colon (s : string) : bool :=
  str_forallb (fun c => negb (Ascii.eqb c ":")) s.

(** The last character of [s] satisfies [p]. *)
Fixpoint ends_with (p : ascii -> bool) (s : string) : bool :=
  match s with
  | EmptyString => false
  | String c EmptyString => p c
  | String _ s' => ends_with p s'
  end.

(** What the pattern accepts before the colon. *)
Definition chrom_token (c : string) : bool :=
  String.eqb c "X" || String.eqb c "Y" || digits c.

(** [c] is all that the pattern can take of a text [stem ++ c] that stands
    before a colon: an [X] or a [Y], or the whole run of digits at its end
    (which may be empty when no [X], [Y] or digit stands there). *)
Definition token_of (stem c : string) : bool :=
  String.eqb c "X" || String.eqb c "Y"
  || (digits c && negb (ends_with is_digit stem)
      && (negb (String.eqb c "") || negb (ends_with is_XY stem))).

(** The texts of the pattern: [chrom:start-end]. *)
Definition region_text (m : string) : Prop :=
  exists c d1 d2,
    m = c +:+ ":" +:+ d1 +:+ "-" +:+ d2
    /\ chrom_token c = true /\ digits d1 = true /\ digits d2 = true.

Fixpoint count_char (a : ascii) (s : string) : nat :=
  match s with
  | EmptyString => 0%nat
  | String c s' => ((if Ascii.eqb c a then 1 else 0) + count_char a s')%nat
  end.

(** The characters of a quoted text. *)
Definition url_char (c : ascii) : bool :=
  always_safe c || Ascii.eqb c "+" || Ascii.eqb c "%".


Definition stderr_of {F} (t : list (Event F)) : list string :=
  omap (fun e => match e with EStderr msg => Some msg | _ => None end) t.

Section Outcomes.
Context {F : Type} `{PyFloat F}.
Variable json_loads : string -> option (Json F).

(** The state after lines 35-40. *)
Definition throttled (st : State F) : State F :=
  if (reqs_per_sec (self st) <=? req_count (self st))%Z then
    if fltb (since_checkpoint st) fone
    then checkpoint (fadd (now st) (remaining st)) (log (ESleep Throttle (remaining st)) st)
    else checkpoint (now st) st
  else st.

(** The count of requests after lines 35-40. *)
Definition throttled_count (st : State F) : Z :=
  if (reqs_per_sec (self st) <=? req_count (self st))%Z then 0 else req_count (self st).

(** Lines 45-61 for the answer [ans], from the state [st1] in which
    [urlopen] has returned or raised. *)
Definition outcome_of (again : string -> loc -> M F (Json F)) (endpoint : string)
    (l : loc) (ans : HttpResult F) (st1 : State F) : Outcome (Json F) * State F :=
  match ans with
  | HttpOk _ body =>
      if utf8_wf body then
        if negb (String.eqb body "") then
          match json_loads body with
          | Some v => (Ret v, count_request st1)
          | None => (Raise JSONDecodeError, st1)
          end
        else (Ret JNull, count_request st1)
      else (Raise UnicodeDecodeError, st1)
  | HttpError _ code reason headers =>
      if (code =? 429)%Z then
        match header_get "Retry-After" headers with
        | Some retry =>
            match float_of_str retry with
            | Some r =>
                match sleep_error (fadd r fone) with
                | Some e => (Raise e, st1)
                | None =>
                    match again endpoint l (after_sleep Backoff (fadd r fone) st1) with
                    | (Ret _, st2) => (Ret JNull, st2)
                    | (Raise e, st2) => (Raise e, st2)
                    end
                end
            | None => (Raise ValueError, st1)
            end
        | None => (Ret JNull, st1)
        end
      else (Ret JNull, log (EStderr (failure_message endpoint code reason)) st1)
  | HttpFail _ e => (Raise e, st1)
  end.

(** The state in which the request of a call is answered with [ans]: the
    rate limit has run, the request is logged and the clock has moved. *)
Definition answered (target : string) (d : gmap string string) (ans : HttpResult F)
    (st2 : State F) : State F :=
  set_now (fadd (now st2) (elapsed_of ans))
          (log (ERequest (request_of target d st2)) st2).

(** The counter is between 0 and a limit of at least 1. *)
Definition counter_ok (st : State F) : Prop :=
  1 <= reqs_per_sec (self st)
  /\ 0 <= req_count (self st) <= reqs_per_sec (self st).

End Outcomes.

(** The six fields of the line printed for a variant. *)
Definition variant_fields : list string :=
  ["seq_region_name"; "start"; "end"; "strand"; "id"; "consequence_type"].

(** ** A concrete runtime

    Exact rational arithmetic for the clock, and the few documents and
    numerals the examples below exchange with a mocked server.  A rational
    is always a number; a length below the range of [time.sleep] is refused
    as out of range, and the clock of the examples has no upper end. *)

Module Demo.
Definition qlt (a b : Qc) : bool :=
  match (a ?= b)%Qc with Lt => true | _ => false end.

Definition qtruth (a : Qc) : bool :=
  match (a ?= 0)%Qc with Eq => false | _ => true end.

(** [float] on decimal integer numerals. *)
Definition qfloat (s : string) : option Qc :=
  match NilZero.int_of_string s with
  | Some i => Some (Qc_of_Z (Z.of_int i))
  | None => None
  end.

Lemma qsub_one_nonneg (d : Qc) : qlt d 1 = true -> qlt (1 - d) 0 = false.
Proof.
  unfold qlt. destruct (d ?= 1)%Qc eqn:Hd; try discriminate. intros _.
  apply Qclt_alt in Hd.
  destruct (1 - d ?= 0)%Qc eqn:Hs; try reflexivity.
  apply Qclt_alt in Hs. exfalso.
  apply Qclt_minus_iff in Hd.
  apply (Qclt_not_le _ _ Hs). apply Qclt_le_weak. exact Hd.
Qed.

(** The least length [time.sleep] converts: -2^63 nanoseconds. *)
Definition sleep_min : Qc := Q2Qc (-9223372036854775808 # 1000000000).

Definition qnan (a : Qc) : bool := false.

Definition qhuge (a : Qc) : bool := qlt a sleep_min.

Lemma qsub_one_number (d : Qc) : qlt d 1 = true -> qnan (1 - d) = false.
Proof. reflexivity. Qed.

Lemma qsub_one_in_range (d : Qc) : qlt d 1 = true -> qhuge (1 - d) = false.
Proof.
  unfold qhuge, qlt. destruct (d ?= 1)%Qc eqn:Hd; try discriminate. intros _.
  apply Qclt_alt in Hd.
  destruct (1 - d ?= sleep_min)%Qc eqn:Hs; try reflexivity.
  apply Qclt_alt in Hs. exfalso.
  apply Qclt_minus_iff in Hd.
  assert (Hneg : (sleep_min < 0)%Qc) by (apply Qclt_alt; reflexivity).
  apply (Qclt_not_le _ _ (Qclt_trans _ _ _ Hs Hneg)). apply Qclt_le_weak. exact Hd.
Qed.

#[global] Instance qc_float : PyFloat Qc := {|
  fzero := 0%Qc;
  fone := 1%Qc;
  fadd := Qcplus;
  fsub := Qcminus;
  fltb := qlt;
  ftruth := qtruth;
  float_of_str := qfloat;
  fnan := qnan;
  fhuge := qhuge;
  fsub_one_nonneg := qsub_one_nonneg;
  fsub_one_number := qsub_one_number;
  fsub_one_in_range := qsub_one_in_range
|}.

(** The decoder on the documents used below. *)
Definition json_loads (s : string) : option (Json Qc) :=
  if String.eqb s "[]" then Some (JArr [])
  else if String.eqb s "[7]" then Some (JArr [JInt 7])
  else if String.eqb s "{}" then Some (JObj [])
  else if String.eqb s "null" then Some JNull
  else None.

Definition py_str_seq (xs : list string) : string :=
  "[" +:+ String.concat ", " (map (fun x => "'" +:+ x +:+ "'") xs) +:+ "]".

Definition client0 : Client Qc := new_client default_server default_reqs_per_sec.

Definition state0 : State Qc :=
  {| self := client0; now := Qc_of_Z 100; heap := ∅; trace := [] |}.

Definition too_many_requests : HttpResult Qc :=
  HttpError 0%Qc 429 "Too Many Requests" [("Retry-After", "2")].

(** A server that answers 429 once and then delivers [body]. *)
Definition busy_once (body : string) (history : list Request) (_ : Request)
    : HttpResult Qc :=
  match history with
  | [] => too_many_requests
  | _ => HttpOk 0%Qc body
  end.

(** A server that delivers [body] whatever it is asked. *)
Definition always_ok (body : string) (_ : list Request) (_ : Request)
    : HttpResult Qc :=
  HttpOk 0%Qc body.

(** A server that fails every request with the given status. *)
Definition always_error (code : Z) (reason : string) (_ : list Request)
    (_ : Request) : HttpResult Qc :=
  HttpError 0%Qc code reason [].
End Demo.

(** The states and requests of the examples. *)
Module Run.
Import Demo.

Definition dispatch := perform_rest_action json_loads py_str_seq.

Definition json_headers : gmap string string :=
  {["Content-Type" := "application/json"]}.

Definition lookup_url : string :=
  "http://rest.ensembl.org//lookup/id/ENSG00000157764".

(** A client that has used up its window a quarter of a second ago. *)
Definition saturated : State Qc :=
  {| self := {| server := default_server; reqs_per_sec := 15; req_count := 15;
                last_req := Q2Qc (399 # 4) |};
     now := Qc_of_Z 100;
     heap := {[ 0%nat := ∅ ]};
     trace := [] |}.
End Run.

(** More servers and documents for the examples. *)
Module Scenario.

(** A server that answers 429 to its first [k] requests and then delivers
    [body]. *)
Definition busy_for (k : nat) (body : string) (history : list Request) (_ : Request)
    : HttpResult Qc :=
  if (length history <? k)%nat then Demo.too_many_requests else HttpOk 0%Qc body.

(** A server that answers 429 with the given headers. *)
Definition busy_with (headers : list (string * string)) (_ : list Request)
    (_ : Request) : HttpResult Qc :=
  HttpError 0%Qc 429 "Too Many Requests" headers.

(** A server whose connection fails. *)
Definition unreachable (_ : list Request) (_ : Request) : HttpResult Qc :=
  HttpFail 0%Qc (URLError "Connection refused").

Definition braf : Json Qc :=
  JObj [("id", JStr "ENSG00000157764"); ("type", JStr "gene")].

(** A decoder for two documents: [genes] stands for a list of two genes and
    [variants] for a list of one variant. *)
Definition json_loads (s : string) : option (Json Qc) :=
  if String.eqb s "genes" then Some (JArr [braf; JObj [("id", JStr "LRG_299")]])
  else if String.eqb s "variants" then Some (JArr [JObj [("id", JStr "rs1")]])
  else Demo.json_loads s.

(** A server that knows one gene: it answers the symbol lookup with
    [genes] and the overlap query with [variants]. *)
Definition gene_server (_ : list Request) (req : Request) : HttpResult Qc :=
  if String.prefix "http://rest.ensembl.org//xrefs/symbol/" (url req)
  then HttpOk 0%Qc "genes"
  else HttpOk 0%Qc "variants".

Definition py_str_other (_ : Json Qc) : string := "?".

(** A dictionary of the caller with a content type of its own. *)
Definition with_xml : State Qc :=
  {| self := Demo.client0; now := Qc_of_Z 100;
     heap := {[ 0%nat := {[ "Content-Type" := "text/xml" ]} ]};
     trace := [] |}.

Definition variant : Json Qc :=
  JObj [("seq_region_name", JStr "7"); ("start", JInt 140753336);
        ("end", JInt 140753336); ("strand", JInt 1); ("id", JStr "rs113488022");
        ("consequence_type", JStr "missense_variant")].
End Scenario.

(** Tactics for the case analyses below. *)
Ltac below_limit_case :=
  unfold throttle_sleeps in *; cbn; rewrite ?omap_app; cbn;
  rewrite ?app_nil_r; repeat split; (lia || congruence).

Ltac no_sleep_case :=
  unfold all_sleeps in *; cbn; rewrite ?omap_app; cbn;
  rewrite ?app_nil_r; repeat split; (lia || congruence).

(** * Properties *)

(** ** Strings *)

Lemma str_app_nil_l (s : string) : "" +:+ s = s.
Proof. reflexivity. Qed.

Lemma str_app_cons (c : ascii) (a b : string) :
  String c a +:+ b = String c (a +:+ b).
Proof. reflexivity. Qed.

Lemma str_app_nil_r (s : string) : s +:+ "" = s.
Proof.
  induction s as [|c s IH]; [reflexivity|].
  now rewrite str_app_cons, IH.
Qed.

Lemma str_app_assoc (a b c : string) : (a +:+ b) +:+ c = a +:+ b +:+ c.
Proof.
  induction a as [|x a IH]; [reflexivity|].
  now rewrite !str_app_cons, IH.
Qed.

Lemma str_length_app (a b : string) :
  String.length (a +:+ b) = (String.length a + String.length b)%nat.
Proof.
  induction a as [|x a IH]; [reflexivity|].
  rewrite str_app_cons. cbn. now rewrite IH.
Qed.

Lemma str_length_pos (s : string) : s <> "" -> (0 < String.length s)%nat.
Proof. destruct s; [congruence | cbn; lia]. Qed.

Lemma substring_app_prefix (a b : string) :
  substring 0 (String.length a) (a +:+ b) = a.
Proof.
  induction a as [|x a IH].
  - rewrite str_app_nil_l. destruct b; reflexivity.
  - rewrite str_app_cons. cbn. now rewrite IH.
Qed.

Lemma occurs_in_prefix (a b : string) : occurs_in a (a +:+ b).
Proof. exists "", b. reflexivity. Qed.

Lemma occurs_in_app_l (x a s : string) : occurs_in x s -> occurs_in x (a +:+ s).
Proof.
  intros (pre & post & ->). exists (a +:+ pre), post.
  now rewrite str_app_assoc.
Qed.

Lemma occurs_in_app_r (x s b : string) : occurs_in x s -> occurs_in x (s +:+ b).
Proof.
  intros (pre & post & ->). exists pre, (post +:+ b).
  now rewrite !str_app_assoc.
Qed.

(** ** The matcher against the language of the expression *)

Section MatcherSound.
Context {A : Type}.

Lemma star_loop_sound (r : regex) (k : string -> option A)
    (IH : forall s (k' : string -> option A) x, rmatch r s k' = Some x ->
            exists s1 s2, s = s1 +:+ s2 /\ matches r s1 /\ k' s2 = Some x) :
  forall n s x, star_loop (rmatch r) k n s = Some x ->
    exists s1 s2, s = s1 +:+ s2 /\ matches (Star r) s1 /\ k s2 = Some x.
Proof.
  induction n as [|n IHn]; intros s x Hrun; cbn [star_loop] in Hrun.
  - exists "", s. repeat split; [constructor | exact Hrun].
  - destruct (rmatch r s _) as [y|] eqn:Hbody.
    + revert Hrun; intros [= ->].
      apply IH in Hbody as (a & s' & -> & Ha & Hk).
      destruct (String.length s' <? String.length (a +:+ s'))%nat eqn:Hlt;
        [|discriminate].
      apply IHn in Hk as (b & s2 & -> & Hb & Hk).
      exists (a +:+ b), s2. rewrite str_app_assoc. repeat split; [|exact Hk].
      constructor; [|exact Ha|exact Hb].
      intros ->. apply Nat.ltb_lt in Hlt. rewrite str_app_nil_l in Hlt. lia.
    + exists "", s. repeat split; [constructor | exact Hrun].
Qed.
End MatcherSound.

Lemma rmatch_sound (r : regex) :
  forall A s (k : string -> option A) x, rmatch r s k = Some x ->
    exists s1 s2, s = s1 +:+ s2 /\ matches r s1 /\ k s2 = Some x.
Proof.
  induction r as [|p|r1 IH1 r2 IH2|r1 IH1 r2 IH2|r IH]; intros A s k x Hrun; cbn in Hrun.
  - exists "", s. repeat split; [constructor | exact Hrun].
  - destruct s as [|c s]; [discriminate|].
    destruct (p c) eqn:Hp; [|discriminate].
    exists (String c ""), s. repeat split; [now constructor | exact Hrun].
  - apply IH1 in Hrun as (a & s' & -> & Ha & Hrun).
    apply IH2 in Hrun as (b & s2 & -> & Hb & Hk).
    exists (a +:+ b), s2. rewrite str_app_assoc.
    repeat split; [now constructor | exact Hk].
  - destruct (rmatch r1 s k) as [y|] eqn:H1.
    + revert Hrun; intros [= ->]. apply IH1 in H1 as (a & s2 & -> & Ha & Hk).
      exists a, s2. repeat split; [now apply MAltL | exact Hk].
    + apply IH2 in Hrun as (a & s2 & -> & Ha & Hk).
      exists a, s2. repeat split; [now apply MAltR | exact Hk].
  - eapply star_loop_sound; [|exact Hrun]. intros; now apply IH.
Qed.

Lemma star_loop_skip {A} (body : string -> (string -> option A) -> option A)
    (k : string -> option A) (n : nat) (s : string) :
  is_Some (k s) -> is_Some (star_loop body k n s).
Proof.
  intros Hk. destruct n as [|n]; cbn; [exact Hk|].
  destruct (body s _); [eauto | exact Hk].
Qed.

Lemma rmatch_complete (A : Type) (r : regex) (s1 : string) :
  matches r s1 -> accepts_after (A := A) r s1.
Proof.
  induction 1 as [|p c Hp|r1 r2 a b Ha IHa Hb IHb|r1 r2 a Ha IHa|r1 r2 a Ha IHa
                  |r|r a b Hne Ha IHa Hb IHb]; intros s2 k Hk.
  - split; [exact Hk | exact I].
  - split; [|exact I]. rewrite str_app_cons, str_app_nil_l. cbn. now rewrite Hp.
  - split; [|exact I]. cbn. rewrite str_app_assoc.
    apply IHa. apply IHb. exact Hk.
  - split; [|exact I]. cbn.
    destruct (IHa s2 k Hk) as [[y ->] _]. eauto.
  - split; [|exact I]. cbn.
    destruct (rmatch r1 (a +:+ s2) k); [eauto|]. now apply IHa.
  - split; [cbn | intros n _]; now apply star_loop_skip.
  - assert (Hall : forall n, (String.length ((a +:+ b) +:+ s2) <= n)%nat ->
               is_Some (star_loop (rmatch r) k n ((a +:+ b) +:+ s2))).
    { pose proof (str_length_pos a Hne) as Hpos.
      intros n Hn. rewrite str_app_assoc in *.
      destruct n as [|n].
      { rewrite str_length_app in Hn. lia. }
      cbn [star_loop].
      destruct (IHa (b +:+ s2)
                  (fun s' => if (String.length s' <? String.length (a +:+ b +:+ s2))%nat
                             then star_loop (rmatch r) k n s' else None)) as [[y ->] _];
        [|eauto].
      assert (Hlt : (String.length (b +:+ s2) < String.length (a +:+ b +:+ s2))%nat).
      { rewrite (str_length_app a). lia. }
      apply Nat.ltb_lt in Hlt as Hlt'. rewrite Hlt'.
      apply (IHb s2 k Hk). rewrite (str_length_app a) in Hn. lia. }
    split; [cbn; now apply Hall | exact Hall].
Qed.

(** [re_match] reports a prefix that is in the language, and reports one
    whenever some prefix is. *)
Lemma re_match_sound (r : regex) (s m : string) :
  re_match r s = Some m -> exists rest, s = m +:+ rest /\ matches r m.
Proof.
  unfold re_match. destruct (rmatch r s Some) as [rest|] eqn:Hrun; [|discriminate].
  intros [= <-]. apply rmatch_sound in Hrun as (s1 & s2 & -> & Hm & [= ->]).
  exists rest. rewrite str_length_app, Nat.add_sub, substring_app_prefix. auto.
Qed.

Lemma re_match_complete (r : regex) (m rest : string) :
  matches r m -> is_Some (re_match r (m +:+ rest)).
Proof.
  intros Hm. unfold re_match.
  destruct (rmatch_complete string r m Hm rest Some) as [[y ->] _]; eauto.
Qed.

(** [re_search] reports the leftmost occurrence of the language in the text. *)
Lemma re_search_sound (r : regex) (s m : string) :
  re_search r s = Some m ->
  exists pre post, s = pre +:+ m +:+ post /\ matches r m /\
    forall pre' m' post', s = pre' +:+ m' +:+ post' -> matches r m' ->
      (String.length pre <= String.length pre')%nat.
Proof.
  revert m. induction s as [|c s IH]; intros m; cbn [re_search].
  - destruct (re_match r "") as [m0|] eqn:Hm; [|discriminate].
    intros [= <-]. apply re_match_sound in Hm as (rest & Hs & Hm).
    exists "", rest. repeat split; [exact Hs | exact Hm | cbn; lia].
  - destruct (re_match r (String c s)) as [m0|] eqn:Hm.
    + intros [= <-]. apply re_match_sound in Hm as (rest & Hs & Hm).
      exists "", rest. repeat split; [exact Hs | exact Hm | cbn; lia].
    + intros Hs. apply IH in Hs as (pre & post & -> & Hmm & Hleft).
      exists (String c pre), post. repeat split; [exact Hmm|].
      intros pre' m' post' Heq Hm'. destruct pre' as [|c' pre'].
      * rewrite str_app_nil_l in Heq. rewrite Heq in Hm.
        destruct (re_match_complete r m' post' Hm') as [y Hy]. congruence.
      * rewrite str_app_cons in Heq. injection Heq as -> Heq. cbn.
        apply le_n_S. eapply Hleft; eauto.
Qed.

Lemma re_search_complete (r : regex) (s : string) :
  (exists m, occurs_in m s /\ matches r m) -> is_Some (re_search r s).
Proof.
  intros (m & (pre & post & ->) & Hm).
  induction pre as [|c pre IH]; cbn [re_search].
  - rewrite str_app_nil_l.
    destruct (re_match_complete r m post Hm) as [y Hy].
    destruct (m +:+ post); cbn [re_search]; rewrite Hy; eauto.
  - rewrite str_app_cons. cbn [re_search].
    destruct (re_match r (String c (pre +:+ m +:+ post))); [eauto | exact IH].
Qed.

Lemma re_search_none (r : regex) (s : string) :
  re_search r s = None <-> forall m, occurs_in m s -> ~ matches r m.
Proof.
  split.
  - intros Hnone m Hocc Hm.
    destruct (re_search_complete r s) as [y Hy]; [eauto | congruence].
  - intros Hno. destruct (re_search r s) as [m|] eqn:Hs; [|reflexivity].
    apply re_search_sound in Hs as (pre & post & -> & Hm & _).
    exfalso. apply (Hno m); [now exists pre, post | exact Hm].
Qed.

(** ** The parts of [perform_rest_action] *)

Section Dispatcher.
Context {F : Type} `{PyFloat F}.
Variable json_loads : string -> option (Json F).
Variable py_str_seq : list string -> string.
Variable transport : list Request -> Request -> HttpResult F.

Lemma with_content_type_lookup (d : gmap string string) :
  is_Some (with_content_type d !! "Content-Type").
Proof.
  unfold with_content_type. destruct (d !! "Content-Type") eqn:Hd.
  - rewrite Hd. eauto.
  - rewrite lookup_insert_eq. eauto.
Qed.

Lemma with_content_type_id (d : gmap string string) :
  is_Some (d !! "Content-Type") -> with_content_type d = d.
Proof. unfold with_content_type. now intros [v ->]. Qed.

Lemma prepare_headers_some (l : loc) (d : gmap string string) (st : State F) :
  heap st !! l = Some d ->
  prepare_headers (Some l) st =
    (Ret l, match d !! "Content-Type" with
            | None => set_heap (<[l := with_content_type d]> (heap st)) st
            | Some _ => st
            end).
Proof.
  intros Hl. unfold prepare_headers, with_content_type, dict_set, deref, St.bind, St.ret.
  rewrite Hl. destruct (d !! "Content-Type"); [reflexivity|]. now rewrite Hl.
Qed.

Lemma prepare_headers_none (st : State F) :
  let l := fresh (dom (heap st)) in
  prepare_headers None st =
    (Ret l, set_heap (<[l := with_content_type ∅]> (heap st)) st).
Proof.
  unfold prepare_headers, with_content_type, dict_set, deref, new_dict, St.bind, St.ret.
  cbn. rewrite !lookup_insert_eq, lookup_empty. cbn.
  rewrite lookup_insert_eq. cbn. now rewrite insert_insert_eq.
Qed.

(** What [prepare_headers] leaves behind, in both cases. *)
Lemma prepare_headers_ok (hdrs : option loc) (st : State F) :
  hdrs_ok st hdrs ->
  exists l d, prepare_headers hdrs st = (Ret l, set_heap (<[l := d]> (heap st)) st)
    /\ is_Some (d !! "Content-Type")
    /\ (forall l0 d0, hdrs = Some l0 -> heap st !! l0 = Some d0 ->
          l = l0 /\ d = with_content_type d0).
Proof.
  destruct hdrs as [l|]; unfold hdrs_ok.
  - intros [d Hd]. exists l, (with_content_type d).
    rewrite (prepare_headers_some l d st Hd).
    split; [|split; [apply with_content_type_lookup|]].
    + unfold with_content_type. destruct (d !! "Content-Type"); [|reflexivity].
      rewrite insert_id by exact Hd. now destruct st.
    + intros l0 d0 [= <-] Hd0. rewrite Hd in Hd0. now injection Hd0 as <-.
  - intros _. eexists _, _. rewrite prepare_headers_none.
    split; [reflexivity|]. split; [apply with_content_type_lookup | discriminate].
Qed.

Lemma prepare_headers_dangling (l : loc) (st : State F) :
  heap st !! l = None -> prepare_headers (Some l) st = (Raise TypeError, st).
Proof.
  intros Hl. unfold prepare_headers, deref, St.bind, St.ret. now rewrite Hl.
Qed.

(** The rate limit leaves a client alone that is below its limit. *)
Lemma throttle_idle (st : State F) :
  req_count (self st) < reqs_per_sec (self st) -> throttle st = (Ret tt, st).
Proof.
  intros Hlt. unfold throttle, St.bind, get_self.
  destruct (Z.leb_spec (reqs_per_sec (self st)) (req_count (self st))); [lia|].
  reflexivity.
Qed.

Lemma throttle_due (st : State F) :
  reqs_per_sec (self st) <= req_count (self st) ->
  throttle st =
    (Ret tt,
     if fltb (since_checkpoint st) fone
     then checkpoint (fadd (now st) (remaining st)) (log (ESleep Throttle (remaining st)) st)
     else checkpoint (now st) st).
Proof.
  intros Hle. unfold throttle, St.bind, get_self.
  destruct (Z.leb_spec (reqs_per_sec (self st)) (req_count (self st))); [|lia].
  unfold time_time, time_sleep, sleep_error, since_checkpoint, remaining. cbn.
  destruct (fltb (fsub (now st) (last_req (self st))) fone) eqn:Hd; cbn.
  - rewrite (fsub_one_number _ Hd), (fsub_one_in_range _ Hd), (fsub_one_nonneg _ Hd).
    reflexivity.
  - now destruct st.
Qed.

(** [attempt], case by case. *)
Lemma attempt_cases (again : string -> loc -> M F (Json F)) (endpoint : string)
    (l : loc) (d : gmap string string) (st : State F) :
  heap st !! l = Some d ->
  let st1 := after_urlopen transport endpoint d st in
  attempt json_loads transport again endpoint l st =
    match answer_to transport endpoint d st with
    | HttpOk _ body =>
        if utf8_wf body then
          if negb (String.eqb body "") then
            match json_loads body with
            | Some v => (Ret v, count_request st1)
            | None => (Raise JSONDecodeError, st1)
            end
          else (Ret JNull, count_request st1)
        else (Raise UnicodeDecodeError, st1)
    | HttpError _ code reason headers =>
        if (code =? 429)%Z then
          match header_get "Retry-After" headers with
          | Some retry =>
              match float_of_str retry with
              | Some r =>
                  match sleep_error (fadd r fone) with
                  | Some e => (Raise e, st1)
                  | None =>
                      match again endpoint l (after_sleep Backoff (fadd r fone) st1) with
                      | (Ret _, st2) => (Ret JNull, st2)
                      | (Raise e, st2) => (Raise e, st2)
                      end
                  end
              | None => (Raise ValueError, st1)
              end
          | None => (Ret JNull, st1)
          end
        else (Ret JNull, log (EStderr (failure_message endpoint code reason)) st1)
    | HttpFail _ e => (Raise e, st1)
    end.
Proof.
  intros Hl st1. subst st1.
  unfold attempt, urlopen, deref, St.bind, get_self, after_urlopen, answer_to, request_of.
  rewrite Hl. cbn.
  destruct (transport _ _) as [t body|t code reason headers|t e]; cbn.
  - unfold St.lift, decode_utf8. destruct (utf8_wf body); [|reflexivity].
    destruct (negb (String.eqb body "")); [|reflexivity].
    destruct (json_loads body); reflexivity.
  - destruct (code =? 429)%Z; [|reflexivity].
    destruct (header_get "Retry-After" headers) as [retry|]; [|reflexivity].
    destruct (float_of_str retry) as [r|]; [|reflexivity].
    unfold time_sleep. destruct (sleep_error (fadd r fone)) as [err|]; [reflexivity|].
    unfold after_sleep. cbn.
    destruct (again endpoint l _) as [[v|e] st2]; reflexivity.
  - reflexivity.
Qed.

Lemma perform_rest_action_unfold (fuel : nat) (endpoint : string)
    (hdrs : option loc) (params : option Params) (doseq : bool) (st : State F) :
  perform_rest_action json_loads py_str_seq transport (S fuel) endpoint hdrs params doseq st =
    match prepare_headers hdrs st with
    | (Ret l, st1) =>
        match throttle st1 with
        | (Ret _, st2) =>
            attempt json_loads transport
              (fun e h => perform_rest_action json_loads py_str_seq transport fuel e (Some h) None false)
              (with_query py_str_seq endpoint params doseq) l st2
        | (Raise e, st2) => (Raise e, st2)
        end
    | (Raise e, st1) => (Raise e, st1)
    end.
Proof. reflexivity. Qed.

Lemma prepare_headers_cases (hdrs : option loc) (st : State F) :
  (hdrs_ok st hdrs /\
   exists l d, prepare_headers hdrs st = (Ret l, set_heap (<[l := d]> (heap st)) st)
     /\ is_Some (d !! "Content-Type")
     /\ (forall l0 d0, hdrs = Some l0 -> heap st !! l0 = Some d0 ->
           l = l0 /\ d = with_content_type d0))
  \/ (~ hdrs_ok st hdrs /\ prepare_headers hdrs st = (Raise TypeError, st)).
Proof.
  destruct hdrs as [l|].
  - destruct (heap st !! l) as [d|] eqn:Hl.
    + left. assert (Hok : hdrs_ok st (Some l)) by (cbn; rewrite Hl; eauto).
      split; [exact Hok | now apply prepare_headers_ok].
    + right. split; [|now apply prepare_headers_dangling].
      cbn. rewrite Hl. now intros [? ?].
  - left. split; [exact I | now apply prepare_headers_ok].
Qed.

Lemma throttle_effect (st : State F) :
  exists st2, throttle st = (Ret tt, st2)
    /\ heap st2 = heap st
    /\ server (self st2) = server (self st)
    /\ reqs_per_sec (self st2) = reqs_per_sec (self st)
    /\ trace st2 = trace st ++ throttle_events st.
Proof.
  unfold throttle_events.
  destruct (Z.leb_spec (reqs_per_sec (self st)) (req_count (self st))) as [Hle|Hlt].
  - rewrite (throttle_due st Hle). eexists; split; [reflexivity|].
    destruct (fltb (since_checkpoint st) fone); cbn; rewrite ?app_nil_r; auto.
  - rewrite (throttle_idle st Hlt). eexists; split; [reflexivity|].
    rewrite app_nil_r. auto.
Qed.

Lemma requests_of_app (t1 t2 : list (Event F)) :
  requests_of (t1 ++ t2) = requests_of t1 ++ requests_of t2.
Proof. apply omap_app. Qed.

Lemma throttle_sleeps_app (t1 t2 : list (Event F)) :
  throttle_sleeps (t1 ++ t2) = throttle_sleeps t1 ++ throttle_sleeps t2.
Proof. apply omap_app. Qed.

Lemma requests_of_throttle_events (st : State F) :
  requests_of (throttle_events st) = [].
Proof.
  unfold throttle_events.
  destruct (_ <=? _)%Z; [|reflexivity].
  destruct (fltb _ _); reflexivity.
Qed.

Local Abbreviation pra := (perform_rest_action json_loads py_str_seq transport).

(** *** What a call never touches *)

(** With a dictionary that already names a content type, the call leaves
    the dictionaries alone. *)
Lemma perform_rest_action_heap (fuel : nat) :
  forall endpoint l d params doseq st,
    heap st !! l = Some d -> is_Some (d !! "Content-Type") ->
    heap (pra fuel endpoint (Some l) params doseq st).2 = heap st.
Proof.
  induction fuel as [|fuel IH]; intros endpoint l d params doseq st Hl Hct;
    [reflexivity|].
  rewrite perform_rest_action_unfold, (prepare_headers_some l d st Hl).
  destruct Hct as [v Hv]. rewrite Hv.
  destruct (throttle_effect st) as (st2 & -> & Hheap & _).
  rewrite (attempt_cases _ _ _ d st2) by now rewrite Hheap.
  cbv zeta.
  destruct (answer_to transport _ d st2) as [t body|t code reason headers|t e]; cbn.
  - destruct (utf8_wf body); [|exact Hheap].
    destruct (negb _); [destruct (json_loads body)|]; exact Hheap.
  - destruct (code =? 429)%Z; [|exact Hheap].
    destruct (header_get _ _) as [retry|]; [|exact Hheap].
    destruct (float_of_str retry) as [r|]; [|exact Hheap].
    destruct (sleep_error _) as [err|]; [exact Hheap|].
    match goal with |- context [pra fuel ?e (Some l) None false ?s] =>
      specialize (IH e l d None false s); destruct (pra fuel e (Some l) None false s) as [[w|x] st3]
    end; cbn in *; rewrite IH; eauto; now rewrite Hheap.
  - exact Hheap.
Qed.

Lemma perform_rest_action_config (fuel : nat) :
  forall endpoint hdrs params doseq st,
    same_config st (pra fuel endpoint hdrs params doseq st).2.
Proof.
  induction fuel as [|fuel IH]; intros endpoint hdrs params doseq st;
    [split; reflexivity|].
  rewrite perform_rest_action_unfold.
  destruct (prepare_headers_cases hdrs st)
    as [(_ & l & d & -> & _ & _)|(_ & ->)]; [|split; reflexivity].
  destruct (throttle_effect (set_heap (<[l:=d]> (heap st)) st))
    as (st2 & -> & Hheap & Hsrv & Hrps & _).
  cbn in Hheap, Hsrv, Hrps.
  rewrite (attempt_cases _ _ _ d st2) by (rewrite Hheap; apply lookup_insert_eq).
  cbv zeta. unfold same_config.
  destruct (answer_to transport _ d st2) as [t body|t code reason headers|t e]; cbn.
  - destruct (utf8_wf body); [|auto].
    destruct (negb _); [destruct (json_loads body)|]; cbn; auto.
  - destruct (code =? 429)%Z; [|auto].
    destruct (header_get _ _) as [retry|]; [|auto].
    destruct (float_of_str retry) as [r|]; [|auto].
    destruct (sleep_error _) as [err|]; [auto|].
    match goal with |- context [pra fuel ?e ?h None false ?s] =>
      destruct (IH e h None false s) as [IH1 IH2];
      destruct (pra fuel e h None false s) as [[w|x] st3]
    end; cbn in *; rewrite IH1, IH2; auto.
  - auto.
Qed.

(** *** The trace of a call *)

Lemma attempt_trace (again : string -> loc -> M F (Json F)) (endpoint : string)
    (l : loc) (d : gmap string string) (st : State F) :
  (forall e h s, exists rest, trace (again e h s).2 = trace s ++ rest) ->
  heap st !! l = Some d ->
  exists post,
    trace (attempt json_loads transport again endpoint l st).2 =
      trace st ++ ERequest (request_of endpoint d st) :: post.
Proof.
  intros Hagain Hl. rewrite (attempt_cases _ _ _ d st Hl). cbv zeta.
  destruct (answer_to transport endpoint d st) as [t body|t code reason headers|t e].
  - destruct (utf8_wf body); [|now exists []].
    destruct (negb _); [destruct (json_loads body)|]; now exists [].
  - destruct (code =? 429)%Z.
    2: { eexists [_]. cbn. now rewrite <- app_assoc. }
    destruct (header_get _ _) as [retry|]; [|now exists []].
    destruct (float_of_str retry) as [r|]; [|now exists []].
    destruct (sleep_error _) as [err|]; [now exists []|].
    match goal with |- context [again ?e ?h ?s] =>
      destruct (Hagain e h s) as [rest Hrest]; destruct (again e h s) as [[w|x] st3]
    end; cbn in *; rewrite Hrest; exists (ESleep Backoff (fadd r fone) :: rest);
      now rewrite <- !app_assoc.
  - now exists [].
Qed.

Lemma perform_rest_action_extends (fuel : nat) :
  forall endpoint hdrs params doseq st,
    exists rest, trace (pra fuel endpoint hdrs params doseq st).2 = trace st ++ rest.
Proof.
  induction fuel as [|fuel IH]; intros endpoint hdrs params doseq st.
  { exists []. now rewrite app_nil_r. }
  rewrite perform_rest_action_unfold.
  destruct (prepare_headers_cases hdrs st)
    as [(_ & l & d & -> & _ & _)|(_ & ->)]; [|exists []; now rewrite app_nil_r].
  destruct (throttle_effect (set_heap (<[l:=d]> (heap st)) st))
    as (st2 & -> & Hheap & _ & _ & Htrace).
  cbn in Hheap, Htrace.
  destruct (attempt_trace
              (fun e h => pra fuel e (Some h) None false)
              (with_query py_str_seq endpoint params doseq) l d st2) as [post Hpost].
  - intros e h s0. apply IH.
  - rewrite Hheap. apply lookup_insert_eq.
  - rewrite Hpost, Htrace, <- app_assoc. eauto.
Qed.

(** A call that gets as far as the request: the events of the rate limit,
    then the request for the encoded endpoint, with the prepared headers. *)
Lemma perform_rest_action_trace (fuel : nat) (endpoint : string)
    (hdrs : option loc) (params : option Params) (doseq : bool) (st : State F) :
  hdrs_ok st hdrs ->
  exists d post,
    trace (pra (S fuel) endpoint hdrs params doseq st).2 =
      trace st ++ throttle_events st
        ++ ERequest {| url := server (self st) +:+ with_query py_str_seq endpoint params doseq;
                       req_headers := d |} :: post
    /\ is_Some (d !! "Content-Type")
    /\ (forall l d0, hdrs = Some l -> heap st !! l = Some d0 -> d = with_content_type d0).
Proof.
  intros Hok. rewrite perform_rest_action_unfold.
  destruct (prepare_headers_ok hdrs st Hok) as (l & d & -> & Hct & Hd).
  destruct (throttle_effect (set_heap (<[l:=d]> (heap st)) st))
    as (st2 & -> & Hheap & Hsrv & _ & Htrace).
  cbn in Hheap, Hsrv, Htrace.
  destruct (attempt_trace
              (fun e h => pra fuel e (Some h) None false)
              (with_query py_str_seq endpoint params doseq) l d st2) as [post Hpost].
  - intros e h s0. apply perform_rest_action_extends.
  - rewrite Hheap. apply lookup_insert_eq.
  - exists d, post. split; [|split; [exact Hct|]].
    + rewrite Hpost, Htrace. unfold request_of, throttle_events. cbn.
      rewrite Hsrv, <- app_assoc. reflexivity.
    + intros l0 d0 Hh Hl0. now destruct (Hd l0 d0 Hh Hl0).
Qed.

(** *** Where the requests of a call go *)

Lemma attempt_urls (again : string -> loc -> M F (Json F)) (endpoint : string)
    (l : loc) (d : gmap string string) (st : State F) :
  (forall e h s, exists rest,
      trace (again e h s).2 = trace s ++ rest
      /\ Forall (fun req => url req = server (self s) +:+ e) (requests_of rest)) ->
  heap st !! l = Some d ->
  exists post,
    trace (attempt json_loads transport again endpoint l st).2 =
      trace st ++ ERequest (request_of endpoint d st) :: post
    /\ Forall (fun req => url req = server (self st) +:+ endpoint) (requests_of post).
Proof.
  intros Hagain Hl. rewrite (attempt_cases _ _ _ d st Hl). cbv zeta.
  destruct (answer_to transport endpoint d st) as [t body|t code reason headers|t e].
  - destruct (utf8_wf body); [|exists []; split; [reflexivity | constructor]].
    destruct (negb _); [destruct (json_loads body)|];
      exists []; (split; [reflexivity | constructor]).
  - destruct (code =? 429)%Z.
    2: { eexists [_]. split; [cbn; now rewrite <- app_assoc | constructor]. }
    destruct (header_get _ _) as [retry|]; [|exists []; split; [reflexivity | constructor]].
    destruct (float_of_str retry) as [r|]; [|exists []; split; [reflexivity | constructor]].
    destruct (sleep_error _) as [err|]; [exists []; split; [reflexivity | constructor]|].
    match goal with |- context [again ?e ?h ?s] =>
      destruct (Hagain e h s) as (rest & Hrest & Hurls);
      destruct (again e h s) as [[w|x] st3]
    end; cbn [fst snd] in Hrest |- *; rewrite Hrest;
      exists (ESleep Backoff (fadd r fone) :: rest);
      (split; [cbn; now rewrite <- !app_assoc | exact Hurls]).
  - exists []; split; [reflexivity | constructor].
Qed.

(** Every request of a call, the retries included, goes to the encoded
    endpoint of the call. *)
Lemma perform_rest_action_urls (fuel : nat) :
  forall endpoint hdrs params doseq st,
    exists sent,
      trace (pra fuel endpoint hdrs params doseq st).2 = trace st ++ sent
      /\ Forall (fun req => url req = server (self st)
                                        +:+ with_query py_str_seq endpoint params doseq)
                (requests_of sent).
Proof.
  induction fuel as [|fuel IH]; intros endpoint hdrs params doseq st.
  { exists []. split; [now rewrite app_nil_r | constructor]. }
  rewrite perform_rest_action_unfold.
  destruct (prepare_headers_cases hdrs st)
    as [(_ & l & d & -> & _ & _)|(_ & ->)];
    [|exists []; split; [now rewrite app_nil_r | constructor]].
  destruct (throttle_effect (set_heap (<[l:=d]> (heap st)) st))
    as (st2 & -> & Hheap & Hsrv & _ & Htrace).
  cbn in Hheap, Hsrv, Htrace.
  destruct (attempt_urls
              (fun e h => pra fuel e (Some h) None false)
              (with_query py_str_seq endpoint params doseq) l d st2)
    as (post & Hpost & Hurls).
  - intros e h s0. apply IH.
  - rewrite Hheap. apply lookup_insert_eq.
  - exists (throttle_events (set_heap (<[l:=d]> (heap st)) st)
            ++ ERequest (request_of (with_query py_str_seq endpoint params doseq) d st2)
            :: post).
    split; [rewrite Hpost, Htrace, <- app_assoc; reflexivity|].
    rewrite requests_of_app, requests_of_throttle_events. cbn [app].
    rewrite <- Hsrv.
    change (requests_of (ERequest ?r :: ?t)) with (r :: requests_of t).
    constructor; [reflexivity | exact Hurls].
Qed.

(** *** A client below its limit *)

Lemma within_limit_refl (st : State F) : within_limit st st.
Proof. unfold within_limit. repeat split; lia. Qed.

Lemma perform_rest_action_below_limit (fuel : nat) :
  forall endpoint hdrs params doseq st,
    req_count (self st) < reqs_per_sec (self st) ->
    within_limit st (pra fuel endpoint hdrs params doseq st).2.
Proof.
  induction fuel as [|fuel IH]; intros endpoint hdrs params doseq st Hlt;
    [apply within_limit_refl|].
  rewrite perform_rest_action_unfold.
  destruct (prepare_headers_cases hdrs st)
    as [(_ & l & d & -> & _ & _)|(_ & ->)]; [|apply within_limit_refl].
  rewrite throttle_idle by exact Hlt.
  rewrite (attempt_cases _ _ _ d) by apply lookup_insert_eq.
  cbv zeta. unfold within_limit, count_request, after_sleep, after_urlopen.
  destruct (answer_to transport _ d _) as [t body|t code reason headers|t e].
  - destruct (utf8_wf body); [|below_limit_case].
    destruct (negb _); [destruct (json_loads body)|]; below_limit_case.
  - destruct (code =? 429)%Z; [|below_limit_case].
    destruct (header_get _ _) as [retry|]; [|below_limit_case].
    destruct (float_of_str retry) as [r|]; [|below_limit_case].
    destruct (sleep_error _) as [err|]; [below_limit_case|].
    match goal with |- context [pra fuel ?e ?h None false ?s] =>
      destruct (IH e h None false s) as (IH1 & IH2 & IH3 & IH4); [exact Hlt|];
      destruct (pra fuel e h None false s) as [[w|x] st3]
    end; cbn in *; rewrite !omap_app in IH1; cbn in IH1; rewrite !app_nil_r in IH1;
      repeat split; (assumption || lia).
  - below_limit_case.
Qed.

Local Abbreviation calls := (run_calls json_loads py_str_seq transport).

Lemma run_calls_below_limit (fuel : nat) (cs : list Call) :
  forall st,
    req_count (self st) + Z.of_nat (length cs) <= reqs_per_sec (self st) ->
    throttle_sleeps (trace (calls fuel cs st).2) = throttle_sleeps (trace st).
Proof.
  induction cs as [|c cs IH]; intros st Hle; [reflexivity|].
  cbn [run_calls]. unfold St.bind at 1.
  destruct (perform_rest_action_below_limit fuel (call_endpoint c) (call_hdrs c)
              (call_params c) (call_doseq c) st) as (H1 & H2 & H3 & H4).
  { cbn [length] in Hle. lia. }
  destruct (pra fuel _ _ _ _ st) as [[v|e] st1]; cbn in *; [|exact H1].
  unfold St.bind. specialize (IH st1).
  destruct (calls fuel cs st1) as [[vs|e] st2]; cbn in *;
    rewrite IH, H1; try reflexivity; rewrite H3; lia.
Qed.

End Dispatcher.

(** * The claims *)

(** ** [format_region] *)

(** C3.  [format_region] turns the sequence ("7", "140424943", "140624564")
    into "7:140424943-140624564" and cuts the strand suffix off
    "7:140424943-140624564-1".  In general, for a string in which the
    pattern occurs, the result is an occurrence of the pattern in the string,
    and the leftmost one; a sequence of a chromosome name, a start and an end
    is formatted as chrom:start-end. *)
Theorem format_region_formats :
  format_region (RSeq [VStr "7"; VStr "140424943"; VStr "140624564"])
    = Ret "7:140424943-140624564"
  /\ format_region (RStr "7:140424943-140624564-1") = Ret "7:140424943-140624564"
  /\ (forall s, (exists m, occurs_in m s /\ matches region_re m) ->
        exists pre m post,
          format_region (RStr s) = Ret m
          /\ s = pre +:+ m +:+ post
          /\ matches region_re m
          /\ forall pre' m' post', s = pre' +:+ m' +:+ post' -> matches region_re m' ->
               (String.length pre <= String.length pre')%nat)
  /\ (forall chrom start stop,
        format_region (RSeq [VStr chrom; start; stop])
          = Ret (chrom +:+ ":" +:+ py_str start +:+ "-" +:+ py_str stop)).
Proof.
  split; [reflexivity|]. split; [reflexivity|]. split.
  - intros s Hocc. destruct (re_search_complete region_re s Hocc) as [m Hm].
    destruct (re_search_sound region_re s m Hm) as (pre & post & Hs & Hmm & Hleft).
    exists pre, m, post. repeat split; try assumption.
    unfold format_region. cbn. now rewrite Hm.
  - intros chrom start stop. unfold format_region. cbn.
    now rewrite !str_app_assoc.
Qed.

(** The general part of [format_region_formats] on a region with a
    chromosome prefix and a strand suffix. *)
Lemma format_region_formats_witness :
  exists pre m post,
    format_region (RStr "chrX:15-20:-1") = Ret m
    /\ "chrX:15-20:-1" = pre +:+ m +:+ post
    /\ matches region_re m.
Proof.
  destruct format_region_formats as (_ & _ & Hgen & _).
  destruct (Hgen "chrX:15-20:-1") as (pre & m & post & Hfmt & Hs & Hm & _).
  - destruct (re_search_sound region_re "chrX:15-20:-1" "X:15-20" eq_refl)
      as (pre & post & Hs & Hm & _).
    exists "X:15-20". split; [now exists pre, post | exact Hm].
  - exists pre, m, post. auto.
Defined.

(** The pattern of the specification is a special case of the pattern of
    the code. *)
Lemma digit_run_star (s : string) :
  matches digit_run s -> matches (Star (Cls is_digit)) s.
Proof.
  intros Hm. inversion Hm as [| |r1 r2 s1 s2 H1 H2| | | |]; subst; clear Hm.
  inversion H1; subst. apply MStarS; [discriminate | assumption | assumption].
Qed.

Lemma star_digit_run (s : string) :
  matches (Star (Cls is_digit)) s -> s <> "" -> matches digit_run s.
Proof.
  intros Hm Hne. inversion Hm as [| | | | |r|r s1 s2 Hs1 H1 H2]; subst; clear Hm;
    [congruence|].
  apply MCat; assumption.
Qed.

Lemma spec_region_is_region (m : string) :
  matches spec_region_re m -> matches region_re m.
Proof.
  unfold spec_region_re, region_re. intros Hm.
  inversion Hm as [| |r1 r2 c s1 Hc H1| | | |]; subst; clear Hm.
  inversion H1 as [| |r1 r2 s2 s3 Hcolon H2| | | |]; subst; clear H1.
  inversion H2 as [| |r1 r2 d1 s4 Hd1 H3| | | |]; subst; clear H2.
  inversion H3 as [| |r1 r2 s5 d2 Hdash Hd2| | | |]; subst; clear H3.
  repeat apply MCat; try assumption; try now apply digit_run_star.
  inversion Hc; subst; [now apply MAltL | apply MAltR; now apply digit_run_star].
Qed.

(** A text of the pattern of the code that is not one of the pattern of the
    specification has an empty chromosome, start or end. *)
Lemma region_re_improper (m : string) :
  matches region_re m -> ~ matches spec_region_re m ->
  exists c d1 d2,
    m = c +:+ ":" +:+ d1 +:+ "-" +:+ d2 /\ (c = "" \/ d1 = "" \/ d2 = "").
Proof.
  unfold region_re. intros Hm Hno.
  inversion Hm as [| |r1 r2 c s1 Hc H1| | | |]; subst; clear Hm.
  inversion H1 as [| |r1 r2 s2 s3 Hcolon H2| | | |]; subst; clear H1.
  inversion H2 as [| |r1 r2 d1 s4 Hd1 H3| | | |]; subst; clear H2.
  inversion H3 as [| |r1 r2 s5 d2 Hdash Hd2| | | |]; subst; clear H3.
  inversion Hcolon as [|p a Ha| | | | |]; subst; clear Hcolon.
  inversion Hdash as [|p b Hb| | | | |]; subst; clear Hdash.
  apply Ascii.eqb_eq in Ha, Hb. subst a b.
  exists c, d1, d2. split; [reflexivity|].
  destruct c as [|x c]; [now left|].
  destruct d1 as [|y d1]; [now right; left|].
  destruct d2 as [|z d2]; [now right; right|].
  exfalso. apply Hno. unfold spec_region_re.
  repeat apply MCat; try (now constructor);
    try (apply star_digit_run; [assumption | discriminate]).
  inversion Hc; subst; [now apply MAltL|].
  apply MAltR. apply star_digit_run; [assumption | discriminate].
Qed.

(** C6, as stated, fails in two ways.  The pattern of the specification
    does not occur in "chr7", and the call ends with an [AttributeError],
    which is neither a type nor a format error.  It does not occur in
    "foo:-bar" or in "MT:100-200" either, and for these the call returns a
    value, [":-"] and [":100-200"]. *)
Lemma format_region_malformed_counterexample :
  ((forall m, occurs_in m "chr7" -> ~ matches spec_region_re m)
   /\ ~ (exists e, format_region (RStr "chr7") = Raise e /\ is_type_or_format_error e))
  /\ ((forall m, occurs_in m "foo:-bar" -> ~ matches spec_region_re m)
      /\ format_region (RStr "foo:-bar") = Ret ":-")
  /\ ((forall m, occurs_in m "MT:100-200" -> ~ matches spec_region_re m)
      /\ format_region (RStr "MT:100-200") = Ret ":100-200").
Proof.
  split; [split|split; split].
  - now apply re_search_none.
  - intros (e & He & [-> | ->]); discriminate He.
  - now apply re_search_none.
  - reflexivity.
  - now apply re_search_none.
  - reflexivity.
Qed.

(** C6, amended.  For every string in which the pattern of the
    specification does not occur, [format_region] does one of two things.
    When the pattern of the code, whose numbers may be empty, does not occur
    either, it raises an [AttributeError] (the match object is [None] and
    has no [group]).  Otherwise it returns a value: the first text of the
    pattern of the code in the string, with an empty chromosome, start or
    end.  In neither case does it raise a type or a format error. *)
Theorem format_region_malformed (s : string) :
  (forall m, occurs_in m s -> ~ matches spec_region_re m) ->
  ((format_region (RStr s) = Raise AttributeError
    /\ forall m, occurs_in m s -> ~ matches region_re m)
   \/ (exists pre m post,
         format_region (RStr s) = Ret m
         /\ s = pre +:+ m +:+ post
         /\ matches region_re m
         /\ (forall pre' m' post', s = pre' +:+ m' +:+ post' -> matches region_re m' ->
               (String.length pre <= String.length pre')%nat)
         /\ exists c d1 d2,
              m = c +:+ ":" +:+ d1 +:+ "-" +:+ d2 /\ (c = "" \/ d1 = "" \/ d2 = "")))
  /\ ~ (exists e, format_region (RStr s) = Raise e /\ is_type_or_format_error e).
Proof.
  intros Hspec.
  assert (Hfmt : format_region (RStr s)
                 = match re_search region_re s with
                   | Some m => Ret m
                   | None => Raise AttributeError
                   end).
  { unfold format_region. cbn. now destruct (re_search region_re s). }
  rewrite Hfmt. destruct (re_search region_re s) as [m|] eqn:Hsearch.
  - split.
    + right.
      destruct (re_search_sound region_re s m Hsearch) as (pre & post & Hs & Hm & Hleft).
      exists pre, m, post. repeat split; try assumption.
      apply region_re_improper; [exact Hm|].
      apply Hspec. now exists pre, post.
    + intros (e & He & _). discriminate He.
  - split.
    + left. split; [reflexivity | now apply re_search_none].
    + intros (e & He & [-> | ->]); discriminate He.
Qed.

(** [format_region_malformed] on a string without a colon and on one with
    a colon and a dash but no digits. *)
Lemma format_region_malformed_witness :
  format_region (RStr "chr7") = Raise AttributeError
  /\ exists c d1 d2,
       format_region (RStr "foo:-bar") = Ret (c +:+ ":" +:+ d1 +:+ "-" +:+ d2)
       /\ (c = "" \/ d1 = "" \/ d2 = "").
Proof.
  split.
  - destruct (format_region_malformed "chr7") as [[[Hraise _]|Hret] _].
    + now apply re_search_none.
    + exact Hraise.
    + destruct Hret as (pre & m & post & Hm & _). discriminate Hm.
  - destruct (format_region_malformed "foo:-bar") as [[[Hraise _]|Hret] _].
    + now apply re_search_none.
    + discriminate Hraise.
    + destruct Hret as (pre & m & post & Hm & _ & _ & _ & c & d1 & d2 & -> & Hempty).
      exists c, d1, d2. split; assumption.
Defined.

(** ** The dispatcher *)

Section DispatcherClaims.
Context {F : Type} `{PyFloat F}.
Variable json_loads : string -> option (Json F).
Variable py_str_seq : list string -> string.
Variable transport : list Request -> Request -> HttpResult F.

Local Abbreviation pra := (perform_rest_action json_loads py_str_seq transport).
Local Abbreviation calls := (run_calls json_loads py_str_seq transport).

Lemma perform_rest_action_no_sleep (fuel : nat) (endpoint : string)
    (hdrs : option loc) (params : option Params) (doseq : bool) (st : State F) :
  never_busy transport ->
  req_count (self st) < reqs_per_sec (self st) ->
  all_sleeps (trace (pra fuel endpoint hdrs params doseq st).2) = all_sleeps (trace st).
Proof.
  intros Hnever Hlt. destruct fuel as [|fuel]; [reflexivity|].
  rewrite perform_rest_action_unfold.
  destruct (prepare_headers_cases hdrs st)
    as [(_ & l & d & -> & _ & _)|(_ & ->)]; [|reflexivity].
  rewrite throttle_idle by exact Hlt.
  rewrite (attempt_cases _ _ _ _ _ d) by apply lookup_insert_eq.
  cbv zeta. unfold count_request, after_sleep, after_urlopen, answer_to.
  destruct (transport _ _) as [t body|t code reason headers|t e] eqn:Hans.
  - destruct (utf8_wf body); [|no_sleep_case].
    destruct (negb _); [destruct (json_loads body)|]; no_sleep_case.
  - apply Hnever in Hans. apply Z.eqb_neq in Hans. rewrite Hans. no_sleep_case.
  - no_sleep_case.
Qed.

Lemma run_calls_no_sleep (fuel : nat) (cs : list Call) :
  never_busy transport ->
  forall st,
    req_count (self st) + Z.of_nat (length cs) <= reqs_per_sec (self st) ->
    all_sleeps (trace (calls fuel cs st).2) = all_sleeps (trace st).
Proof.
  intros Hnever. induction cs as [|c cs IH]; intros st Hle; [reflexivity|].
  cbn [run_calls]. unfold St.bind at 1.
  assert (Hlt : req_count (self st) < reqs_per_sec (self st))
    by (cbn [length] in Hle; lia).
  pose proof (perform_rest_action_no_sleep fuel (call_endpoint c) (call_hdrs c)
                (call_params c) (call_doseq c) st Hnever Hlt) as Hs.
  destruct (perform_rest_action_below_limit json_loads py_str_seq transport fuel
              (call_endpoint c) (call_hdrs c) (call_params c) (call_doseq c) st Hlt)
    as (_ & _ & H3 & H4).
  destruct (pra fuel _ _ _ _ st) as [[v|e] st1]; cbn in *; [|exact Hs].
  unfold St.bind. specialize (IH st1).
  destruct (calls fuel cs st1) as [[vs|e] st2]; cbn in *;
    rewrite IH, Hs; try reflexivity; rewrite H3; cbn [length] in Hle; lia.
Qed.

(** C2.  The client-side rate limit.
    - A series of calls that keeps the number of requests of the window
      within [reqs_per_sec] never sleeps in the rate limit, whatever the
      server answers; with a server that never answers 429 it does not sleep
      at all.
    - A call made when the count has reached the limit, less than a second
      after the checkpoint, first sleeps for exactly the rest of that second,
      [1 - (now - last_req)].
    - Whenever the count has reached the limit, the rate limit sets the
      count to zero and the checkpoint to the current time, read after the
      sleep if there was one, and does so whether it slept or not. *)
Theorem throttle_policy :
  (forall fuel cs st,
     req_count (self st) + Z.of_nat (length cs) <= reqs_per_sec (self st) ->
     throttle_sleeps (trace (run_calls json_loads py_str_seq transport fuel cs st).2) = throttle_sleeps (trace st)
     /\ (never_busy transport -> all_sleeps (trace (run_calls json_loads py_str_seq transport fuel cs st).2) = all_sleeps (trace st)))
  /\ (forall fuel endpoint hdrs params doseq st,
        hdrs_ok st hdrs ->
        reqs_per_sec (self st) <= req_count (self st) ->
        fltb (since_checkpoint st) fone = true ->
        exists rest,
          trace (perform_rest_action json_loads py_str_seq transport (S fuel) endpoint hdrs params doseq st).2 =
            trace st ++ ESleep Throttle (remaining st) :: rest)
  /\ (forall st,
        reqs_per_sec (self st) <= req_count (self st) ->
        exists st',
          throttle st = (Ret tt, st')
          /\ req_count (self st') = 0
          /\ last_req (self st') = now st'
          /\ now st' = (if fltb (since_checkpoint st) fone
                        then fadd (now st) (remaining st) else now st)
          /\ trace st' = trace st ++ (if fltb (since_checkpoint st) fone
                                      then [ESleep Throttle (remaining st)] else [])).
Proof.
  split; [|split].
  - intros fuel cs st Hle. split.
    + now apply run_calls_below_limit.
    + intros Hnever. now apply run_calls_no_sleep.
  - intros fuel endpoint hdrs params doseq st Hok Hle Hwin.
    destruct (perform_rest_action_trace json_loads py_str_seq transport
                fuel endpoint hdrs params doseq st Hok) as (d & post & Htr & _).
    rewrite Htr. unfold throttle_events.
    destruct (Z.leb_spec (reqs_per_sec (self st)) (req_count (self st))); [|lia].
    rewrite Hwin. eexists. reflexivity.
  - intros st Hle. rewrite (throttle_due st Hle). eexists. split; [reflexivity|].
    destruct (fltb (since_checkpoint st) fone); cbn; rewrite ?app_nil_r; auto.
Qed.

Lemma with_query_occurs (endpoint : string) (params : option Params) (doseq : bool) :
  occurs_in endpoint (with_query py_str_seq endpoint params doseq).
Proof.
  unfold with_query. destruct (params_truthy params).
  - apply occurs_in_prefix.
  - exists "", "". now rewrite str_app_nil_l, str_app_nil_r.
Qed.

Lemma occurs_in_trans (a b c : string) : occurs_in a b -> occurs_in b c -> occurs_in a c.
Proof.
  intros (p1 & q1 & ->) (p2 & q2 & ->). exists (p2 +:+ p1), (q1 +:+ q2).
  now rewrite !str_app_assoc.
Qed.

Lemma failure_message_occurs (target : string) (code : Z) (reason : string) :
  let msg := failure_message target code reason in
  occurs_in target msg /\ occurs_in (py_str_int code) msg /\ occurs_in reason msg.
Proof.
  unfold failure_message. repeat split.
  - eexists _, _. reflexivity.
  - exists ("Request failed for " +:+ target +:+ ": Status code: "),
      (" Reason: " +:+ reason +:+ String "010" "").
    now rewrite !str_app_assoc.
  - exists ("Request failed for " +:+ target +:+ ": Status code: "
             +:+ py_str_int code +:+ " Reason: "), (String "010" "").
    now rewrite !str_app_assoc.
Qed.

(** C5.  A call whose request is answered with an HTTP error other than 429
    returns [None] and raises nothing; after the request it writes one
    message to the error channel, which contains the endpoint, the status
    code and the reason. *)
Theorem http_error_reported (fuel : nat) (endpoint : string) (hdrs : option loc)
    (params : option Params) (doseq : bool) (st : State F)
    (t : F) (code : Z) (reason : string) (headers : list (string * string)) :
  hdrs_ok st hdrs ->
  code <> 429 ->
  (forall req, transport (requests_of (trace st)) req = HttpError t code reason headers) ->
  let r := perform_rest_action json_loads py_str_seq transport (S fuel) endpoint hdrs params doseq st in
  let target := with_query py_str_seq endpoint params doseq in
  let msg := failure_message target code reason in
  r.1 = Ret JNull
  /\ (exists d,
        trace r.2 = trace st ++ throttle_events st
          ++ [ERequest {| url := server (self st) +:+ target; req_headers := d |};
              EStderr msg])
  /\ occurs_in endpoint msg
  /\ occurs_in (py_str_int code) msg
  /\ occurs_in reason msg.
Proof.
  intros Hok Hcode Hans r target msg. subst r.
  destruct (failure_message_occurs target code reason) as (Ht & Hc & Hr).
  assert (He : occurs_in endpoint msg).
  { eapply occurs_in_trans; [apply with_query_occurs | exact Ht]. }
  rewrite perform_rest_action_unfold.
  destruct (prepare_headers_ok hdrs st Hok) as (l & d & -> & _ & _).
  destruct (throttle_effect (set_heap (<[l:=d]> (heap st)) st))
    as (st2 & -> & Hheap & Hsrv & _ & Htrace).
  cbn in Hheap, Hsrv, Htrace.
  rewrite (attempt_cases _ _ _ _ _ d st2) by (rewrite Hheap; apply lookup_insert_eq).
  cbv zeta. unfold answer_to.
  rewrite Htrace, requests_of_app, requests_of_throttle_events, app_nil_r, Hans.
  apply Z.eqb_neq in Hcode. rewrite Hcode.
  split; [reflexivity|]. split; [|auto].
  exists d. unfold after_urlopen, request_of. cbn.
  rewrite Htrace, Hsrv, <- !app_assoc. reflexivity.
Qed.

(** C9.  The header dictionary of the caller is changed in place: a
    dictionary passed without a ['Content-Type'] holds
    ['Content-Type': 'application/json'] after the call, whatever the
    outcome, and no other dictionary is touched.  Of the client's fields,
    [server] and [reqs_per_sec] are never modified (only [req_count] and
    [last_req] may be). *)
Theorem headers_mutated_in_place :
  (forall fuel endpoint l d params doseq st,
     heap st !! l = Some d ->
     d !! "Content-Type" = None ->
     let st' := (perform_rest_action json_loads py_str_seq transport (S fuel) endpoint (Some l) params doseq st).2 in
     heap st' !! l = Some (<["Content-Type" := "application/json"]> d)
     /\ heap st' = <[l := <["Content-Type" := "application/json"]> d]> (heap st))
  /\ (forall fuel endpoint hdrs params doseq st,
        let st' := (perform_rest_action json_loads py_str_seq transport fuel endpoint hdrs params doseq st).2 in
        server (self st') = server (self st)
        /\ reqs_per_sec (self st') = reqs_per_sec (self st)).
Proof.
  split.
  - intros fuel endpoint l d params doseq st Hl Hct st'.
    set (d' := <["Content-Type" := "application/json"]> d).
    set (st1 := set_heap (<[l := d']> (heap st)) st).
    assert (Hl1 : heap st1 !! l = Some d') by apply lookup_insert_eq.
    assert (Hct1 : is_Some (d' !! "Content-Type"))
      by (unfold d'; rewrite lookup_insert_eq; eauto).
    assert (Hsame : pra (S fuel) endpoint (Some l) params doseq st
                    = pra (S fuel) endpoint (Some l) params doseq st1).
    { rewrite !perform_rest_action_unfold.
      rewrite (prepare_headers_some l d st Hl), (prepare_headers_some l d' st1 Hl1).
      destruct Hct1 as [v Hv]. rewrite Hct, Hv.
      unfold with_content_type. rewrite Hct. reflexivity. }
    assert (Hheap : heap st' = heap st1).
    { subst st'. rewrite Hsame.
      now apply (perform_rest_action_heap json_loads py_str_seq transport
                   (S fuel) endpoint l d'). }
    rewrite Hheap. split; [exact Hl1 | reflexivity].
  - intros fuel endpoint hdrs params doseq st.
    apply (perform_rest_action_config json_loads py_str_seq transport).
Qed.

(** The value of the retried request is dropped: whenever the first answer
    is a 429, the call returns [None] or raises, whatever the retry
    delivers. *)
Lemma retry_result_dropped (fuel : nat) (endpoint : string) (hdrs : option loc)
    (params : option Params) (doseq : bool) (st : State F)
    (t : F) (reason : string) (headers : list (string * string)) :
  (forall req, transport (requests_of (trace st)) req = HttpError t 429 reason headers) ->
  forall v, (pra fuel endpoint hdrs params doseq st).1 = Ret v -> v = JNull.
Proof.
  intros Hans v. destruct fuel as [|fuel]; [discriminate|].
  rewrite perform_rest_action_unfold.
  destruct (prepare_headers_cases hdrs st)
    as [(_ & l & d & -> & _ & _)|(_ & ->)]; [|discriminate].
  destruct (throttle_effect (set_heap (<[l:=d]> (heap st)) st))
    as (st2 & -> & Hheap & _ & _ & Htrace).
  cbn in Hheap, Htrace.
  rewrite (attempt_cases _ _ _ _ _ d st2) by (rewrite Hheap; apply lookup_insert_eq).
  cbv zeta. unfold answer_to.
  rewrite Htrace, requests_of_app, requests_of_throttle_events, app_nil_r, Hans.
  cbn.
  destruct (header_get _ _) as [retry|]; [|now intros [= <-]].
  destruct (float_of_str retry) as [r|]; [|discriminate].
  destruct (sleep_error _) as [err|]; [discriminate|].
  destruct (pra fuel _ _ _ _ _) as [[w|x] st3]; [now intros [= <-] | discriminate].
Qed.

(** What does hold of the retry: after a 429 with a [Retry-After] of [r]
    the call sleeps [r + 1.0] and then sends the same request again, to the
    URL already encoded and with the same headers. *)
Lemma retry_repeats_request (fuel : nat) (endpoint : string) (hdrs : option loc)
    (params : option Params) (doseq : bool) (st : State F)
    (t : F) (reason : string) (headers : list (string * string))
    (retry : string) (r : F) :
  hdrs_ok st hdrs ->
  (forall req, transport (requests_of (trace st)) req = HttpError t 429 reason headers) ->
  header_get "Retry-After" headers = Some retry ->
  float_of_str retry = Some r ->
  sleep_error (fadd r fone) = None ->
  exists d mid post,
    let req := {| url := server (self st) +:+ with_query py_str_seq endpoint params doseq;
                  req_headers := d |} in
    trace (pra (S (S fuel)) endpoint hdrs params doseq st).2 =
      trace st ++ throttle_events st
        ++ ERequest req :: ESleep Backoff (fadd r fone) :: mid ++ ERequest req :: post
    /\ requests_of mid = [].
Proof.
  intros Hok Hans Hretry Hr Hpos.
  rewrite perform_rest_action_unfold.
  destruct (prepare_headers_ok hdrs st Hok) as (l & d & -> & Hct & _).
  destruct (throttle_effect (set_heap (<[l:=d]> (heap st)) st))
    as (st2 & -> & Hheap & Hsrv & _ & Htrace).
  cbn in Hheap, Hsrv, Htrace.
  assert (Hl : heap st2 !! l = Some d) by (rewrite Hheap; apply lookup_insert_eq).
  rewrite (attempt_cases _ _ _ _ _ d st2 Hl).
  cbv zeta. unfold answer_to at 1.
  rewrite Htrace, requests_of_app, requests_of_throttle_events, app_nil_r, Hans.
  cbn [Z.eqb Pos.eqb]. rewrite Hretry, Hr, Hpos.
  set (target := with_query py_str_seq endpoint params doseq).
  set (st3 := after_sleep Backoff (fadd r fone) (after_urlopen transport target d st2)).
  destruct (perform_rest_action_trace json_loads py_str_seq transport fuel target
              (Some l) None false st3) as (d' & post & Htr & _ & Hd').
  { cbn. rewrite Hl. eauto. }
  specialize (Hd' l d eq_refl Hl). rewrite with_content_type_id in Hd' by exact Hct.
  subst d'.
  exists d, (throttle_events st3), post. split; [|apply requests_of_throttle_events].
  assert (Hfin : trace (pra (S fuel) target (Some l) None false st3).2
                 = trace st ++ throttle_events st
                     ++ ERequest {| url := server (self st) +:+ target; req_headers := d |}
                     :: ESleep Backoff (fadd r fone) :: throttle_events st3
                     ++ ERequest {| url := server (self st) +:+ target; req_headers := d |}
                     :: post).
  { rewrite Htr. subst st3. unfold after_sleep, after_urlopen, request_of. cbn.
    rewrite Htrace, Hsrv, <- !app_assoc. reflexivity. }
  destruct (pra (S fuel) target (Some l) None false st3) as [[w|x] st4]; exact Hfin.
Qed.

End DispatcherClaims.

(** ** The query methods *)

Lemma quote_plus_plain (s : string) : plain_name s = true -> quote_plus s = s.
Proof.
  unfold plain_name. induction s as [|c s IH]; cbn; [reflexivity|].
  intros [Hc Hs]%andb_prop. unfold quote_char. rewrite Hc.
  now rewrite str_app_cons, str_app_nil_l, IH.
Qed.

Section QueryClaims.
Context {F : Type} `{PyFloat F}.
Variable json_loads : string -> option (Json F).
Variable py_str_seq : list string -> string.
Variable transport : list Request -> Request -> HttpResult F.

Local Abbreviation pra := (perform_rest_action json_loads py_str_seq transport).

Lemma bind_or_none (m : M F (Json F)) (st : State F) :
  St.bind m (fun info => if truthy info then St.ret info else St.ret JNull) st
    = or_none m st.
Proof.
  unfold St.bind, or_none. destruct (m st) as [[v|e] st']; cbn; [|reflexivity].
  now destruct (truthy v).
Qed.

(** C4, amended.  When the dispatcher returns an empty list, [get_ensembl_id]
    returns [None], with the flag set or not: an empty list is false, so the
    first element is never asked for. *)
Theorem get_ensembl_id_empty (fuel : nat) (species symbol : string)
    (only_stable_id : bool) (st st' : State F) :
  perform_rest_action json_loads py_str_seq transport fuel ("/xrefs/symbol/" +:+ species +:+ "/" +:+ symbol) None
      (Some [("object_type", PStr "gene")]) false st = (Ret (JArr []), st') ->
  get_ensembl_id json_loads py_str_seq transport fuel species symbol only_stable_id st
    = (Ret JNull, st').
Proof.
  intros Hcall. unfold get_ensembl_id, St.bind. now rewrite Hcall.
Qed.

(** C8, amended.  [get_ensembl_info] requests [/lookup/id/{identifier}?expand=1]
    with the flag and [/lookup/id/{identifier}?], with a question mark and an
    empty query, without it; it returns what the dispatcher decoded when that
    is true, and [None] otherwise. *)
Theorem get_ensembl_info_endpoint (fuel : nat) (identifier : string) (expand : bool)
    (st : State F) :
  let ext := "/lookup/id/" +:+ identifier +:+ (if expand then "?expand=1" else "?") in
  let r := get_ensembl_info json_loads py_str_seq transport (S fuel) identifier expand st in
  r = or_none (perform_rest_action json_loads py_str_seq transport (S fuel) ext None None false) st
  /\ exists d post,
       trace r.2 = trace st ++ throttle_events st
         ++ ERequest {| url := server (self st) +:+ ext; req_headers := d |} :: post.
Proof.
  intros ext r.
  assert (Hr : r = or_none (pra (S fuel) ext None None false) st).
  { subst r ext. unfold get_ensembl_info. rewrite bind_or_none.
    now destruct expand. }
  split; [exact Hr|]. rewrite Hr. cbn [or_none snd].
  destruct (perform_rest_action_trace json_loads py_str_seq transport
              fuel ext None None false st I) as (d & post & Htr & _).
  exists d, post. exact Htr.
Qed.

Lemma urlencode_features (fs : list string) :
  urlencode py_str_seq [("feature", PSeq fs)] true
    = String.concat "&" (map (fun f => "feature=" +:+ quote_plus f) fs).
Proof.
  unfold urlencode, urlencode_pair. cbn [map concat fst snd].
  rewrite app_nil_r. reflexivity.
Qed.

(** C7.  [get_overlap] formats the region first and, when that raises,
    sends nothing.  Otherwise it asks for
    [/overlap/region/{species}/{region}] with one [feature=...] pair per
    element of the feature list, joined by [&] (each name passed through
    [quote_plus], which leaves plain names as they are); the list is
    [["gene"]] when none is given and the given one when it is not empty. *)
Theorem get_overlap_request :
  features_or_default None = ["gene"]
  /\ (forall f fs, features_or_default (Some (f :: fs)) = f :: fs)
  /\ (forall fuel species region features r st,
        format_region region = Ret r ->
        exists d post,
          trace (get_overlap json_loads py_str_seq transport (S fuel)
                   species region features st).2 =
            trace st ++ throttle_events st
              ++ ERequest
                   {| url := server (self st) +:+ "/overlap/region/" +:+ species +:+ "/"
                               +:+ r +:+ "?"
                               +:+ String.concat "&"
                                     (map (fun f => "feature=" +:+ quote_plus f)
                                          (features_or_default features));
                      req_headers := d |} :: post)
  /\ (forall f, plain_name f = true -> quote_plus f = f)
  /\ (forall fuel species region features e st,
        format_region region = Raise e ->
        get_overlap json_loads py_str_seq transport fuel species region features st
          = (Raise e, st)).
Proof.
  split; [reflexivity|]. split; [reflexivity|]. split; [|split].
  - intros fuel species region features r st Hfmt.
    unfold get_overlap. unfold St.bind at 1, St.lift. rewrite Hfmt.
    rewrite bind_or_none. cbn [or_none snd].
    destruct (perform_rest_action_trace json_loads py_str_seq transport fuel
                ("/overlap/region/" +:+ species +:+ "/" +:+ r) None
                (Some [("feature", PSeq (features_or_default features))]) true st I)
      as (d & post & Htr & _).
    exists d, post. rewrite Htr.
    change (with_query py_str_seq ?e (Some [("feature", PSeq ?ps)]) true)
      with (e +:+ "?" +:+ urlencode py_str_seq [("feature", PSeq ps)] true).
    now rewrite urlencode_features, !str_app_assoc.
  - exact quote_plus_plain.
  - intros fuel species region features e st Hfmt.
    unfold get_overlap, St.bind, St.lift. now rewrite Hfmt.
Qed.

(** C10.  An empty feature list is replaced by the default: the call is
    the same as one without a feature list, and what it requests is
    [/overlap/region/{species}/{region}?feature=gene].  No call of
    [get_overlap] asks for an empty list of features: every request that
    it sends, a retry included, carries the [feature=...] pairs of a list
    that is not empty. *)
Theorem get_overlap_empty_features :
  (forall fuel species region,
     get_overlap json_loads py_str_seq transport fuel species region (Some [])
       = get_overlap json_loads py_str_seq transport fuel species region None)
  /\ features_or_default (Some []) = ["gene"]
  /\ (forall features, features_or_default features <> [])
  /\ (forall fuel species region r st,
        format_region region = Ret r ->
        exists d post,
          trace (get_overlap json_loads py_str_seq transport (S fuel)
                   species region (Some []) st).2 =
            trace st ++ throttle_events st
              ++ ERequest
                   {| url := server (self st) +:+ "/overlap/region/" +:+ species +:+ "/"
                               +:+ r +:+ "?feature=gene";
                      req_headers := d |} :: post)
  /\ (forall fuel species region features st,
        exists sent,
          trace (get_overlap json_loads py_str_seq transport fuel
                   species region features st).2 = trace st ++ sent
          /\ forall req, In req (requests_of sent) ->
               exists r f fs,
                 format_region region = Ret r
                 /\ features_or_default features = f :: fs
                 /\ url req =
                      server (self st) +:+ "/overlap/region/" +:+ species +:+ "/"
                        +:+ r +:+ "?"
                        +:+ String.concat "&"
                              (map (fun x => "feature=" +:+ quote_plus x) (f :: fs))).
Proof.
  split; [reflexivity|]. split; [reflexivity|].
  split; [intros [[|f fs]|]; discriminate|]. split.
  - intros fuel species region r st Hfmt.
    unfold get_overlap. unfold St.bind at 1, St.lift. rewrite Hfmt.
    rewrite bind_or_none. cbn [or_none snd].
    destruct (perform_rest_action_trace json_loads py_str_seq transport fuel
                ("/overlap/region/" +:+ species +:+ "/" +:+ r) None
                (Some [("feature", PSeq (features_or_default (Some [])))]) true st I)
      as (d & post & Htr & _).
    exists d, post. rewrite Htr.
    change (with_query py_str_seq ?e (Some [("feature", PSeq ?ps)]) true)
      with (e +:+ "?" +:+ urlencode py_str_seq [("feature", PSeq ps)] true).
    rewrite urlencode_features, !str_app_assoc. reflexivity.
  - intros fuel species region features st.
    unfold get_overlap. unfold St.bind at 1, St.lift.
    destruct (format_region region) as [r|e] eqn:Hfmt.
    2: { exists []. split; [cbn; now rewrite app_nil_r | intros req []]. }
    rewrite bind_or_none. cbn [or_none snd].
    destruct (perform_rest_action_urls json_loads py_str_seq transport fuel
                ("/overlap/region/" +:+ species +:+ "/" +:+ r) None
                (Some [("feature", PSeq (features_or_default features))]) true st)
      as (sent & Htr & Hurls).
    exists sent. split; [exact Htr|].
    intros req Hin. rewrite List.Forall_forall in Hurls. specialize (Hurls req Hin).
    assert (Hne : exists f fs, features_or_default features = f :: fs)
      by (destruct features as [[|f fs]|]; cbn; eauto).
    destruct Hne as (f & fs & Hfs). exists r, f, fs.
    split; [reflexivity|]. split; [exact Hfs|].
    rewrite Hurls, Hfs.
    change (with_query py_str_seq ?e (Some [("feature", PSeq ?ps)]) true)
      with (e +:+ "?" +:+ urlencode py_str_seq [("feature", PSeq ps)] true).
    now rewrite urlencode_features, !str_app_assoc.
Qed.

End QueryClaims.

(** ** The claims on a mocked server *)

(** C1 does not hold of the code.  The server answers 429 with
    [Retry-After: 2] and then delivers the document [[7]]: the client sends
    the request, sleeps 3 seconds and sends the same request again, but the
    call returns [None], not the decoded document; line 57 drops the value of
    the recursive call. *)
Theorem retry_after_429_returns_none :
  let r := Run.dispatch (Demo.busy_once "[7]") 2 "/lookup/id/ENSG00000157764"
             None None false Demo.state0 in
  let req := {| url := Run.lookup_url; req_headers := Run.json_headers |} in
  trace r.2 = [ERequest req; ESleep Backoff (Qc_of_Z 2 + 1)%Qc; ERequest req]
  /\ Demo.json_loads "[7]" = Some (JArr [JInt 7])
  /\ r.1 = Ret JNull.
Proof. vm_compute. repeat split. Qed.

(** [throttle_policy] on two calls of a fresh client, and on a client that
    reached its limit of 15 a quarter of a second ago: it sleeps the other
    three quarters. *)
Lemma throttle_policy_witness :
  throttle_sleeps
    (trace (run_calls Demo.json_loads Demo.py_str_seq (Demo.always_ok "[7]") 1
              [ {| call_endpoint := "/a"; call_hdrs := None;
                   call_params := None; call_doseq := false |};
                {| call_endpoint := "/b"; call_hdrs := None;
                   call_params := None; call_doseq := false |} ]
              Demo.state0).2) = []
  /\ (exists rest,
        trace (Run.dispatch (Demo.always_ok "[7]") 1 "/a" (Some 0%nat) None false
                 Run.saturated).2
          = ESleep Throttle (Q2Qc (3 # 4)) :: rest)
  /\ (exists st', throttle Run.saturated = (Ret tt, st')
        /\ req_count (self st') = 0 /\ last_req (self st') = now st').
Proof.
  destruct (throttle_policy Demo.json_loads Demo.py_str_seq (Demo.always_ok "[7]"))
    as (Hfree & Hsleep & Hreset).
  split; [|split].
  - apply (Hfree 1%nat _ Demo.state0). vm_compute. discriminate.
  - destruct (Hsleep 0%nat "/a" (Some 0%nat) None false Run.saturated) as [rest Hrest].
    + vm_compute. eauto.
    + vm_compute. discriminate.
    + vm_compute. reflexivity.
    + exists rest. unfold Run.dispatch. rewrite Hrest. reflexivity.
  - destruct (Hreset Run.saturated) as (st' & Hst & Hc & Hl & _).
    + vm_compute. discriminate.
    + exists st'. auto.
Defined.

(** C4, as stated, fails: the server delivers the empty list, the dispatcher
    returns it, and [get_ensembl_id] asked for the stable ID only returns
    [None] instead of failing with an index or key error. *)
Lemma get_ensembl_id_empty_counterexample :
  let server := Demo.always_ok "[]" in
  let r := get_ensembl_id Demo.json_loads Demo.py_str_seq server 1 "human" "BRAF" true
             Demo.state0 in
  (Run.dispatch server 1 "/xrefs/symbol/human/BRAF" None
     (Some [("object_type", PStr "gene")]) false Demo.state0).1 = Ret (JArr [])
  /\ r.1 = Ret JNull
  /\ ~ (exists e, r.1 = Raise e /\ (e = IndexError \/ e = KeyError)).
Proof.
  vm_compute. repeat split. intros (e & He & _). discriminate He.
Qed.

(** [get_ensembl_id_empty] on the server that delivers the empty list. *)
Lemma get_ensembl_id_empty_witness :
  (get_ensembl_id Demo.json_loads Demo.py_str_seq (Demo.always_ok "[]") 1
     "human" "BRAF" true Demo.state0).1 = Ret JNull.
Proof.
  erewrite (get_ensembl_id_empty Demo.json_loads Demo.py_str_seq (Demo.always_ok "[]")
              1 "human" "BRAF" true Demo.state0);
    [reflexivity | vm_compute; reflexivity].
Defined.

(** [http_error_reported] on a server that answers 404. *)
Lemma http_error_reported_witness :
  let r := Run.dispatch (Demo.always_error 404 "Not Found") 1
             "/lookup/id/ENSG00000157764" None None false Demo.state0 in
  r.1 = Ret JNull
  /\ exists d,
       trace r.2 =
         [ERequest {| url := Run.lookup_url; req_headers := d |};
          EStderr (failure_message "/lookup/id/ENSG00000157764" 404 "Not Found")].
Proof.
  destruct (http_error_reported Demo.json_loads Demo.py_str_seq
              (Demo.always_error 404 "Not Found") 0 "/lookup/id/ENSG00000157764"
              None None false Demo.state0 0%Qc 404 "Not Found" [])
    as (Hret & (d & Htrace) & _).
  - exact I.
  - discriminate.
  - intros req. reflexivity.
  - split; [exact Hret|]. exists d. unfold Run.dispatch. rewrite Htrace. reflexivity.
Defined.

(** [headers_mutated_in_place] on an empty dictionary of the caller. *)
Lemma headers_mutated_in_place_witness :
  heap (Run.dispatch (Demo.always_ok "[7]") 1 "/a" (Some 0%nat) None false
          Run.saturated).2 !! 0%nat = Some Run.json_headers.
Proof.
  destruct (headers_mutated_in_place Demo.json_loads Demo.py_str_seq
              (Demo.always_ok "[7]")) as [Hheap _].
  destruct (Hheap 0%nat "/a" 0%nat ∅ None false Run.saturated) as [Hl _].
  - reflexivity.
  - reflexivity.
  - exact Hl.
Defined.

(** C8, as stated, fails: without the flag the URL requested for
    ENSG00000157764 ends in a question mark; it is not the plain path. *)
Lemma get_ensembl_info_endpoint_counterexample :
  let r := get_ensembl_info Demo.json_loads Demo.py_str_seq (Demo.always_ok "[7]") 1
             "ENSG00000157764" false Demo.state0 in
  map url (requests_of (trace r.2)) = [Run.lookup_url +:+ "?"]
  /\ Run.lookup_url +:+ "?"
       <> default_server +:+ "/lookup/id/" +:+ "ENSG00000157764".
Proof.
  split; [vm_compute; reflexivity | vm_compute; discriminate].
Qed.

(** [get_overlap_request] on two features: two [feature] pairs, no
    comma-joined value; and on a region without the pattern: nothing sent. *)
Lemma get_overlap_request_witness :
  (exists d post,
     trace (get_overlap Demo.json_loads Demo.py_str_seq (Demo.always_ok "[7]") 1
              "human" (RStr "7:140424943-140624564-1") (Some ["gene"; "exon"])
              Demo.state0).2 =
       ERequest
         {| url := "http://rest.ensembl.org//overlap/region/human/7:140424943-140624564?feature=gene&feature=exon";
            req_headers := d |} :: post)
  /\ quote_plus "somatic_variation" = "somatic_variation"
  /\ get_overlap Demo.json_loads Demo.py_str_seq (Demo.always_ok "[7]") 1
       "human" (RStr "chr7") None Demo.state0 = (Raise AttributeError, Demo.state0).
Proof.
  destruct (get_overlap_request Demo.json_loads Demo.py_str_seq (Demo.always_ok "[7]"))
    as (_ & _ & Hreq & Hplain & Hraise).
  split; [|split].
  - destruct (Hreq 0%nat "human" (RStr "7:140424943-140624564-1")
                (Some ["gene"; "exon"]) "7:140424943-140624564" Demo.state0 eq_refl)
      as (d & post & Htrace).
    exists d, post. rewrite Htrace. reflexivity.
  - apply Hplain. reflexivity.
  - apply Hraise. reflexivity.
Defined.

(** [get_overlap_empty_features] on an empty feature list: the request
    asks for the genes of the region. *)
Lemma get_overlap_empty_features_witness :
  exists d post,
    trace (get_overlap Demo.json_loads Demo.py_str_seq (Demo.always_ok "[7]") 1
             "human" (RStr "7:140424943-140624564-1") (Some []) Demo.state0).2 =
      ERequest
        {| url := "http://rest.ensembl.org//overlap/region/human/7:140424943-140624564?feature=gene";
           req_headers := d |} :: post.
Proof.
  destruct (get_overlap_empty_features Demo.json_loads Demo.py_str_seq
              (Demo.always_ok "[7]")) as (_ & _ & _ & Hreq & _).
  destruct (Hreq 0%nat "human" (RStr "7:140424943-140624564-1")
              "7:140424943-140624564" Demo.state0 eq_refl)
    as (d & post & Htrace).
  exists d, post. rewrite Htrace. reflexivity.
Defined.

(** * Further properties of the code *)

(** ** One request and its answer *)

Section Answers.
Context {F : Type} `{PyFloat F}.
Variable json_loads : string -> option (Json F).
Variable py_str_seq : list string -> string.
Variable transport : list Request -> Request -> HttpResult F.

Local Abbreviation pra := (perform_rest_action json_loads py_str_seq transport).

Lemma throttle_run (st : State F) : throttle st = (Ret tt, throttled st).
Proof.
  unfold throttled.
  destruct (Z.leb_spec (reqs_per_sec (self st)) (req_count (self st))) as [Hle|Hlt].
  - apply throttle_due, Hle.
  - apply throttle_idle, Hlt.
Qed.

Lemma throttled_facts (st : State F) :
  heap (throttled st) = heap st
  /\ server (self (throttled st)) = server (self st)
  /\ reqs_per_sec (self (throttled st)) = reqs_per_sec (self st)
  /\ req_count (self (throttled st)) = throttled_count st
  /\ trace (throttled st) = trace st ++ throttle_events st.
Proof.
  unfold throttled, throttled_count, throttle_events.
  destruct (_ <=? _)%Z; [destruct (fltb _ _)|]; cbn; rewrite ?app_nil_r; auto.
Qed.



Lemma stderr_of_app (t1 t2 : list (Event F)) :
  stderr_of (t1 ++ t2) = stderr_of t1 ++ stderr_of t2.
Proof. apply omap_app. Qed.

Lemma stderr_of_throttle_events (st : State F) : stderr_of (throttle_events st) = [].
Proof.
  unfold throttle_events. destruct (_ <=? _)%Z; [destruct (fltb _ _)|]; reflexivity.
Qed.

(** A call with usable headers whose request is answered with [ans]: the
    rest of the call is [outcome_of] that answer, from a state [st3] in
    which the rate limit has run and the request has been sent. *)
Lemma call_answered (fuel : nat) (endpoint : string) (hdrs : option loc)
    (params : option Params) (doseq : bool) (st : State F) (ans : HttpResult F) :
  hdrs_ok st hdrs ->
  (forall req, transport (requests_of (trace st)) req = ans) ->
  let target := with_query py_str_seq endpoint params doseq in
  exists l d st3,
    pra (S fuel) endpoint hdrs params doseq st
      = outcome_of json_loads (fun e h => pra fuel e (Some h) None false) target l ans st3
    /\ trace st3 = trace st ++ throttle_events st
         ++ [ERequest {| url := server (self st) +:+ target; req_headers := d |}]
    /\ req_count (self st3) = throttled_count st
    /\ reqs_per_sec (self st3) = reqs_per_sec (self st)
    /\ server (self st3) = server (self st)
    /\ heap st3 = <[l := d]> (heap st)
    /\ is_Some (d !! "Content-Type")
    /\ match hdrs with
       | Some l0 => l = l0 /\ exists d0, heap st !! l0 = Some d0 /\ d = with_content_type d0
       | None => l = fresh (dom (heap st)) /\ d = with_content_type ∅
       end.
Proof.
  intros Hok Hans target. subst target.
  set (target := with_query py_str_seq endpoint params doseq).
  assert (Hprep : exists l d,
            prepare_headers hdrs st = (Ret l, set_heap (<[l := d]> (heap st)) st)
            /\ is_Some (d !! "Content-Type")
            /\ match hdrs with
               | Some l0 => l = l0 /\ exists d0, heap st !! l0 = Some d0
                                        /\ d = with_content_type d0
               | None => l = fresh (dom (heap st)) /\ d = with_content_type ∅
               end).
  { destruct hdrs as [l0|].
    - destruct Hok as [d0 Hd0].
      destruct (prepare_headers_ok (Some l0) st) as (l & d & Hp & Hct & Hrel);
        [cbn; rewrite Hd0; eauto|].
      destruct (Hrel l0 d0 eq_refl Hd0) as [-> ->].
      exists l0, (with_content_type d0). eauto 6.
    - exists (fresh (dom (heap st))), (with_content_type ∅).
      split; [apply prepare_headers_none|].
      split; [apply with_content_type_lookup | auto]. }
  destruct Hprep as (l & d & Hp & Hct & Hrel).
  set (st1 := set_heap (<[l := d]> (heap st)) st) in *.
  destruct (throttled_facts st1) as (Hheap & Hsrv & Hrps & Hcount & Htrace).
  assert (Hl : heap (throttled st1) !! l = Some d).
  { rewrite Hheap. apply lookup_insert_eq. }
  assert (Hreq : requests_of (trace (throttled st1)) = requests_of (trace st)).
  { rewrite Htrace, requests_of_app, requests_of_throttle_events, app_nil_r. reflexivity. }
  assert (Hanswer : answer_to transport target d (throttled st1) = ans).
  { unfold answer_to. rewrite Hreq. apply Hans. }
  cbn in Hheap, Hsrv, Hrps. subst st1.
  exists l, d, (after_urlopen transport target d
                  (throttled (set_heap (<[l := d]> (heap st)) st))).
  split; [|split; [|split; [|split; [|split; [|split; [|split]]]]]].
  - rewrite perform_rest_action_unfold, Hp, throttle_run.
    rewrite (attempt_cases _ _ _ _ _ d _ Hl).
    cbv zeta. fold target. rewrite Hanswer. reflexivity.
  - unfold after_urlopen, request_of. cbn. rewrite Htrace, Hsrv, <- app_assoc. reflexivity.
  - exact Hcount.
  - exact Hrps.
  - exact Hsrv.
  - exact Hheap.
  - exact Hct.
  - exact Hrel.
Qed.

Ltac answered_call Hok Hans :=
  match goal with
  | |- context [perform_rest_action _ _ _ (S ?fuel) ?endpoint ?hdrs ?params ?doseq ?st] =>
      let l := fresh "l" in let d := fresh "d" in let st3 := fresh "st3" in
      let Hrun := fresh "Hrun" in let Htr := fresh "Htr" in
      let Hcnt := fresh "Hcnt" in let Hrps := fresh "Hrps" in
      let Hsrv := fresh "Hsrv" in let Hhp := fresh "Hhp" in
      let Hct := fresh "Hct" in let Hrel := fresh "Hrel" in
      destruct (call_answered fuel endpoint hdrs params doseq st _ Hok Hans)
        as (l & d & st3 & Hrun & Htr & Hcnt & Hrps & Hsrv & Hhp & Hct & Hrel);
      rewrite Hrun; unfold outcome_of
  end.

(** X1.  A request answered with a document: the call returns the decoded
    document, counts the request on top of what the rate limit left, and
    does nothing but the sleep of the rate limit, if any, and the request. *)
Theorem successful_request (fuel : nat) (endpoint : string) (hdrs : option loc)
    (params : option Params) (doseq : bool) (st : State F)
    (t : F) (body : string) (v : Json F) :
  hdrs_ok st hdrs ->
  (forall req, transport (requests_of (trace st)) req = HttpOk t body) ->
  utf8_wf body = true ->
  body <> "" ->
  json_loads body = Some v ->
  let r := perform_rest_action json_loads py_str_seq transport (S fuel)
             endpoint hdrs params doseq st in
  r.1 = Ret v
  /\ req_count (self r.2) = throttled_count st + 1
  /\ exists d,
       trace r.2 = trace st ++ throttle_events st
         ++ [ERequest {| url := server (self st)
                                 +:+ with_query py_str_seq endpoint params doseq;
                         req_headers := d |}].
Proof.
  intros Hok Hans Hwf Hne Hv r. subst r. answered_call Hok Hans.
  rewrite Hwf, Hv. apply String.eqb_neq in Hne. rewrite Hne. cbn.
  rewrite Hcnt. eauto.
Qed.

(** X2.  A request answered with an empty body: the call returns [None]
    without decoding anything, and the request is counted all the same. *)
Theorem empty_body_is_none (fuel : nat) (endpoint : string) (hdrs : option loc)
    (params : option Params) (doseq : bool) (st : State F) (t : F) :
  hdrs_ok st hdrs ->
  (forall req, transport (requests_of (trace st)) req = HttpOk t "") ->
  let r := perform_rest_action json_loads py_str_seq transport (S fuel)
             endpoint hdrs params doseq st in
  r.1 = Ret JNull /\ req_count (self r.2) = throttled_count st + 1.
Proof.
  intros Hok Hans r. subst r. answered_call Hok Hans. cbn. rewrite Hcnt. auto.
Qed.

(** X3.  A body that is not UTF-8, or not JSON, is not handled: the error
    of the decoder reaches the caller, and the request is not counted. *)
Theorem undecodable_body_raises (fuel : nat) (endpoint : string) (hdrs : option loc)
    (params : option Params) (doseq : bool) (st : State F) (t : F) (body : string) :
  hdrs_ok st hdrs ->
  (forall req, transport (requests_of (trace st)) req = HttpOk t body) ->
  let r := perform_rest_action json_loads py_str_seq transport (S fuel)
             endpoint hdrs params doseq st in
  (utf8_wf body = false -> r.1 = Raise UnicodeDecodeError)
  /\ (utf8_wf body = true -> body <> "" -> json_loads body = None ->
        r.1 = Raise JSONDecodeError)
  /\ (utf8_wf body = false \/ (body <> "" /\ json_loads body = None) ->
        req_count (self r.2) = throttled_count st).
Proof.
  intros Hok Hans r. subst r. answered_call Hok Hans.
  split; [|split].
  - now intros ->.
  - intros -> Hne ->. apply String.eqb_neq in Hne. now rewrite Hne.
  - intros [Hwf | [Hne Hj]].
    + now rewrite Hwf.
    + apply String.eqb_neq in Hne. rewrite Hne, Hj. now destruct (utf8_wf body).
Qed.

(** X4.  A 429 answer without a [Retry-After] header is dropped silently:
    the call returns [None], with no retry, no sleep of its own and no
    message on the error channel. *)
Theorem busy_without_retry_after (fuel : nat) (endpoint : string) (hdrs : option loc)
    (params : option Params) (doseq : bool) (st : State F)
    (t : F) (reason : string) (headers : list (string * string)) :
  hdrs_ok st hdrs ->
  (forall req, transport (requests_of (trace st)) req = HttpError t 429 reason headers) ->
  header_get "Retry-After" headers = None ->
  let r := perform_rest_action json_loads py_str_seq transport (S fuel)
             endpoint hdrs params doseq st in
  r.1 = Ret JNull
  /\ req_count (self r.2) = throttled_count st
  /\ exists d,
       trace r.2 = trace st ++ throttle_events st
         ++ [ERequest {| url := server (self st)
                                 +:+ with_query py_str_seq endpoint params doseq;
                         req_headers := d |}].
Proof.
  intros Hok Hans Hnone r. subst r. answered_call Hok Hans.
  cbn [Z.eqb Pos.eqb]. rewrite Hnone. cbn. eauto.
Qed.


(** X6.  A failure of the transport that is not an HTTP error (no
    connection, a timeout) is not handled: the exception reaches the caller,
    nothing is written to the error channel and the request is not
    counted. *)
Theorem transport_failure_propagates (fuel : nat) (endpoint : string)
    (hdrs : option loc) (params : option Params) (doseq : bool) (st : State F)
    (t : F) (e : Exn) :
  hdrs_ok st hdrs ->
  (forall req, transport (requests_of (trace st)) req = HttpFail t e) ->
  let r := perform_rest_action json_loads py_str_seq transport (S fuel)
             endpoint hdrs params doseq st in
  r.1 = Raise e
  /\ stderr_of (trace r.2) = stderr_of (trace st)
  /\ req_count (self r.2) = throttled_count st.
Proof.
  intros Hok Hans r. subst r. answered_call Hok Hans. cbn.
  rewrite Htr, !stderr_of_app, stderr_of_throttle_events. cbn.
  rewrite !app_nil_r. auto.
Qed.

End Answers.

(** ** Retries, headers and the counter *)

Section Retries.
Context {F : Type} `{PyFloat F}.
Variable json_loads : string -> option (Json F).
Variable py_str_seq : list string -> string.
Variable transport : list Request -> Request -> HttpResult F.

Local Abbreviation pra := (perform_rest_action json_loads py_str_seq transport).


(** X8.  A content type chosen by the caller is kept: the call leaves the
    dictionaries as they are and sends the caller's headers. *)
Theorem caller_content_type_kept (fuel : nat) (endpoint : string) (l : loc)
    (d : gmap string string) (content_type : string)
    (params : option Params) (doseq : bool) (st : State F) :
  heap st !! l = Some d ->
  d !! "Content-Type" = Some content_type ->
  let st' := (perform_rest_action json_loads py_str_seq transport (S fuel)
                endpoint (Some l) params doseq st).2 in
  heap st' = heap st
  /\ exists post,
       trace st' = trace st ++ throttle_events st
         ++ ERequest {| url := server (self st)
                                 +:+ with_query py_str_seq endpoint params doseq;
                        req_headers := d |} :: post.
Proof.
  intros Hl Hct st'. subst st'. split.
  - apply (perform_rest_action_heap json_loads py_str_seq transport _ _ l d);
      [exact Hl | rewrite Hct; eauto].
  - destruct (perform_rest_action_trace json_loads py_str_seq transport fuel endpoint
                (Some l) params doseq st) as (d' & post & Htr & _ & Hd').
    { cbn. rewrite Hl. eauto. }
    rewrite (Hd' l d eq_refl Hl), with_content_type_id in Htr by (rewrite Hct; eauto).
    eauto.
Qed.

(** X9.  Without a header argument the call works on a dictionary of its
    own: every dictionary that exists keeps its content, and the request
    carries the default content type and nothing else. *)
Theorem fresh_headers_when_absent :
  (forall fuel endpoint params doseq st l d,
     heap st !! l = Some d ->
     heap (perform_rest_action json_loads py_str_seq transport fuel
             endpoint None params doseq st).2 !! l = Some d)
  /\ (forall fuel endpoint params doseq st,
        exists post,
          trace (perform_rest_action json_loads py_str_seq transport (S fuel)
                   endpoint None params doseq st).2
            = trace st ++ throttle_events st
                ++ ERequest {| url := server (self st)
                                        +:+ with_query py_str_seq endpoint params doseq;
                               req_headers := {["Content-Type" := "application/json"]} |}
                   :: post).
Proof.
  split.
  - intros fuel endpoint params doseq st l d Hl.
    destruct fuel as [|fuel]; [exact Hl|].
    set (l0 := fresh (dom (heap st))).
    set (d0 := with_content_type (∅ : gmap string string)).
    set (st1 := set_heap (<[l0 := d0]> (heap st)) st).
    assert (Hl0 : heap st1 !! l0 = Some d0) by apply lookup_insert_eq.
    assert (Hct : is_Some (d0 !! "Content-Type")) by apply with_content_type_lookup.
    assert (Hsame : pra (S fuel) endpoint None params doseq st
                    = pra (S fuel) endpoint (Some l0) params doseq st1).
    { rewrite !perform_rest_action_unfold, prepare_headers_none.
      rewrite (prepare_headers_some l0 d0 st1 Hl0).
      destruct Hct as [v Hv]. rewrite Hv. reflexivity. }
    rewrite Hsame.
    rewrite (perform_rest_action_heap json_loads py_str_seq transport _ _ l0 d0)
      by assumption.
    cbn. rewrite lookup_insert_ne; [exact Hl|].
    intros <-. assert (Hin : l0 ∈ dom (heap st)) by (apply elem_of_dom; eauto).
    exact (is_fresh (dom (heap st)) Hin).
  - intros fuel endpoint params doseq st.
    rewrite perform_rest_action_unfold, prepare_headers_none, throttle_run.
    set (st1 := set_heap (<[fresh (dom (heap st)) := with_content_type ∅]> (heap st)) st).
    destruct (throttled_facts st1) as (Hheap & Hsrv & _ & _ & Htrace).
    destruct (attempt_trace json_loads transport
                (fun e h => pra fuel e (Some h) None false)
                (with_query py_str_seq endpoint params doseq)
                (fresh (dom (heap st))) (with_content_type ∅) (throttled st1))
      as [post Hpost].
    + intros e h s0. apply perform_rest_action_extends.
    + rewrite Hheap. apply lookup_insert_eq.
    + exists post. rewrite Hpost, Htrace. unfold request_of. rewrite Hsrv.
      unfold with_content_type. rewrite lookup_empty, insert_empty, <- app_assoc.
      reflexivity.
Qed.

End Retries.

Section Counter.
Context {F : Type} `{PyFloat F}.
Variable json_loads : string -> option (Json F).
Variable py_str_seq : list string -> string.
Variable transport : list Request -> Request -> HttpResult F.

Local Abbreviation pra := (perform_rest_action json_loads py_str_seq transport).

Ltac counter_case := cbn in *; repeat split; lia.

Lemma call_keeps_counter (fuel : nat) :
  forall endpoint hdrs params doseq st,
    counter_ok st -> counter_ok (pra fuel endpoint hdrs params doseq st).2.
Proof.
  unfold counter_ok.
  induction fuel as [|fuel IH]; intros endpoint hdrs params doseq st Hst; [exact Hst|].
  rewrite perform_rest_action_unfold.
  destruct (prepare_headers_cases hdrs st)
    as [(_ & l & d & -> & _ & _)|(_ & ->)]; [|exact Hst].
  rewrite throttle_run.
  set (st1 := set_heap (<[l := d]> (heap st)) st).
  destruct (throttled_facts st1) as (Hheap & _ & Hrps & Hcnt & _).
  assert (Hst2 : 1 <= reqs_per_sec (self (throttled st1))
                 /\ 0 <= req_count (self (throttled st1))
                      <= reqs_per_sec (self (throttled st1)) - 1).
  { rewrite Hrps, Hcnt. unfold throttled_count. cbn.
    destruct (Z.leb_spec (reqs_per_sec (self st)) (req_count (self st))); lia. }
  rewrite (attempt_cases _ _ _ _ _ d (throttled st1))
    by (rewrite Hheap; apply lookup_insert_eq).
  cbv zeta. unfold count_request, after_sleep, after_urlopen.
  generalize dependent (throttled st1). intros st2 _ _ _ Hst2.
  destruct (answer_to transport _ d st2) as [t body|t code reason headers|t e].
  - destruct (utf8_wf body); [|counter_case].
    destruct (negb _); [destruct (json_loads body)|]; counter_case.
  - destruct (code =? 429)%Z; [|counter_case].
    destruct (header_get _ _) as [retry|]; [|counter_case].
    destruct (float_of_str retry) as [r|]; [|counter_case].
    destruct (sleep_error _) as [err|]; [counter_case|].
    match goal with |- context [pra fuel ?e ?h None false ?s] =>
      specialize (IH e h None false s);
      destruct (pra fuel e h None false s) as [[w|x] st3]
    end; cbn in *; apply IH; lia.
  - counter_case.
Qed.

(** X10.  The counter stays within the limit: for a limit of at least 1, a
    count between 0 and the limit is again between 0 and the limit after
    every call, and after every series of calls, whatever the answers. *)
Theorem request_counter_bounded :
  (forall fuel endpoint hdrs params doseq st,
     1 <= reqs_per_sec (self st) ->
     0 <= req_count (self st) <= reqs_per_sec (self st) ->
     let st' := (perform_rest_action json_loads py_str_seq transport fuel
                   endpoint hdrs params doseq st).2 in
     0 <= req_count (self st') <= reqs_per_sec (self st)
     /\ reqs_per_sec (self st') = reqs_per_sec (self st))
  /\ (forall fuel cs st,
        1 <= reqs_per_sec (self st) ->
        0 <= req_count (self st) <= reqs_per_sec (self st) ->
        let st' := (run_calls json_loads py_str_seq transport fuel cs st).2 in
        0 <= req_count (self st') <= reqs_per_sec (self st)
        /\ reqs_per_sec (self st') = reqs_per_sec (self st)).
Proof.
  assert (Hcall : forall fuel endpoint hdrs params doseq st,
            counter_ok st ->
            let st' := (pra fuel endpoint hdrs params doseq st).2 in
            counter_ok st' /\ reqs_per_sec (self st') = reqs_per_sec (self st)).
  { intros fuel endpoint hdrs params doseq st Hst. split.
    - now apply call_keeps_counter.
    - apply (perform_rest_action_config json_loads py_str_seq transport). }
  split.
  - intros fuel endpoint hdrs params doseq st H1 H2 st'.
    destruct (Hcall fuel endpoint hdrs params doseq st) as [(_ & Hc) Hl];
      [split; assumption|].
    fold st' in Hc, Hl. rewrite Hl in Hc. auto.
  - intros fuel cs. induction cs as [|c cs IH]; intros st H1 H2 st'; subst st'.
    + cbn. auto.
    + assert (Hstep :
        (run_calls json_loads py_str_seq transport fuel (c :: cs) st).2
        = match pra fuel (call_endpoint c) (call_hdrs c) (call_params c)
                  (call_doseq c) st with
          | (Ret _, st1) => (run_calls json_loads py_str_seq transport fuel cs st1).2
          | (Raise _, st1) => st1
          end).
      { cbn [run_calls]. unfold St.bind, St.ret.
        destruct (pra fuel _ _ _ _ st) as [[v|e] st1]; [|reflexivity].
        destruct (run_calls json_loads py_str_seq transport fuel cs st1)
          as [[vs|e] st2]; reflexivity. }
      rewrite Hstep. clear Hstep.
      destruct (Hcall fuel (call_endpoint c) (call_hdrs c) (call_params c)
                  (call_doseq c) st) as [(Hone & Hc) Hl]; [split; assumption|].
      destruct (pra fuel _ _ _ _ st) as [[v|e] st1]; cbn [snd] in *.
      * rewrite <- Hl. apply IH; assumption.
      * rewrite Hl in Hc. auto.
Qed.

End Counter.

(** ** The texts of the region pattern *)

Lemma str_forallb_app (p : ascii -> bool) (a b : string) :
  str_forallb p (a +:+ b) = str_forallb p a && str_forallb p b.
Proof.
  induction a as [|x a IH]; [reflexivity|].
  rewrite str_app_cons. cbn. now rewrite IH, andb_assoc.
Qed.

Lemma is_digit_not_XY (c : ascii) : is_digit c = true -> is_XY c = false.
Proof.
  destruct c as [[] [] [] [] [] [] [] []]; vm_compute; congruence.
Qed.

Lemma is_digit_not_colon (c : ascii) : is_digit c = true -> Ascii.eqb c ":" = false.
Proof.
  destruct c as [[] [] [] [] [] [] [] []]; vm_compute; congruence.
Qed.

Lemma digits_no_colon (s : string) : digits s = true -> no_colon s = true.
Proof.
  unfold digits, no_colon. induction s as [|c s IH]; cbn; [reflexivity|].
  intros [Hc Hs]%andb_prop. now rewrite (is_digit_not_colon c Hc), IH.
Qed.

Lemma chrom_token_cases (c : string) :
  chrom_token c = true -> c = "X" \/ c = "Y" \/ digits c = true.
Proof.
  unfold chrom_token. intros [[Hx|Hy]%orb_prop|Hd]%orb_prop.
  - left. now apply String.eqb_eq.
  - right; left. now apply String.eqb_eq.
  - auto.
Qed.

Lemma chrom_token_no_colon (c : string) : chrom_token c = true -> no_colon c = true.
Proof.
  intros [-> | [-> | Hd]]%chrom_token_cases; [reflexivity| reflexivity|].
  now apply digits_no_colon.
Qed.

Lemma matches_cls_inv (p : ascii -> bool) (s : string) :
  matches (Cls p) s -> exists c, s = String c "" /\ p c = true.
Proof. inversion 1; subst. eauto. Qed.

Lemma matches_star_digits (s : string) :
  matches (Star (Cls is_digit)) s <-> digits s = true.
Proof.
  split.
  - intros Hm. remember (Star (Cls is_digit)) as r eqn:Hr.
    induction Hm as [| | | | | |r0 s1 s2 Hne H1 _ H2 IH2]; try discriminate;
      [reflexivity|].
    injection Hr as ->. apply matches_cls_inv in H1 as (c & -> & Hc).
    rewrite str_app_cons, str_app_nil_l. unfold digits in *. cbn.
    now rewrite Hc, IH2.
  - unfold digits. induction s as [|c s IH]; cbn; [constructor|].
    intros [Hc Hs]%andb_prop.
    change (String c s) with (String c "" +:+ s).
    constructor; [discriminate | now constructor | auto].
Qed.

(** The language of the pattern, spelled out. *)
Lemma matches_region_re (m : string) : matches region_re m <-> region_text m.
Proof.
  unfold region_re, region_text. split.
  - intros Hm.
    inversion Hm as [| |r1 r2 c s1 Hc H1| | | |]; subst; clear Hm.
    inversion H1 as [| |r1 r2 s2 s3 Hcolon H2| | | |]; subst; clear H1.
    inversion H2 as [| |r1 r2 d1 s4 Hd1 H3| | | |]; subst; clear H2.
    inversion H3 as [| |r1 r2 s5 d2 Hdash Hd2| | | |]; subst; clear H3.
    apply matches_cls_inv in Hcolon as (a & -> & Ha%Ascii.eqb_eq).
    apply matches_cls_inv in Hdash as (b & -> & Hb%Ascii.eqb_eq). subst a b.
    apply matches_star_digits in Hd1, Hd2.
    exists c, d1, d2. repeat split; try assumption.
    unfold chrom_token.
    inversion Hc as [| | |r1 r2 s Hxy|r1 r2 s Hds| |]; subst.
    + apply matches_cls_inv in Hxy as (a & -> & Ha). unfold is_XY in Ha.
      apply orb_prop in Ha as [->%Ascii.eqb_eq | ->%Ascii.eqb_eq]; reflexivity.
    + apply matches_star_digits in Hds. rewrite Hds. now rewrite !orb_true_r.
  - intros (c & d1 & d2 & -> & Hc & Hd1 & Hd2).
    constructor; [|constructor; [now constructor|constructor;
      [now apply matches_star_digits|constructor;
        [now constructor | now apply matches_star_digits]]]].
    apply chrom_token_cases in Hc as [-> | [-> | Hd]].
    + apply MAltL. now constructor.
    + apply MAltL. now constructor.
    + apply MAltR. now apply matches_star_digits.
Qed.

(** A greedy run of digits takes all the digits there are, when what
    follows can be matched. *)
Lemma star_digits_run {A} (k : string -> option A) (rest : string) (x : A) :
  no_leading_digit rest = true ->
  k rest = Some x ->
  forall ds n,
    digits ds = true ->
    (String.length (ds +:+ rest) <= n)%nat ->
    star_loop (rmatch (Cls is_digit)) k n (ds +:+ rest) = Some x.
Proof.
  intros Hrest Hk. unfold digits.
  induction ds as [|c ds IH]; intros n Hds Hn.
  - rewrite str_app_nil_l. destruct n as [|n]; [exact Hk|]. cbn [star_loop rmatch].
    destruct rest as [|c rest]; [exact Hk|]. cbn in Hrest.
    apply negb_true_iff in Hrest. rewrite Hrest. exact Hk.
  - cbn in Hds. apply andb_prop in Hds as [Hc Hds].
    rewrite str_app_cons in *. destruct n as [|n]; [cbn in Hn; lia|].
    cbn [star_loop rmatch]. rewrite Hc.
    assert (Hlt : (String.length (ds +:+ rest)
                   <? String.length (String c (ds +:+ rest)))%nat = true)
      by (apply Nat.ltb_lt; cbn; lia).
    rewrite Hlt, IH; [reflexivity | exact Hds | cbn in Hn; lia].
Qed.

Lemma rmatch_digits_run {A} (k : string -> option A) (ds rest : string) (x : A) :
  digits ds = true -> no_leading_digit rest = true -> k rest = Some x ->
  rmatch (Star (Cls is_digit)) (ds +:+ rest) k = Some x.
Proof.
  intros Hds Hrest Hk. cbn [rmatch]. now apply star_digits_run.
Qed.

(** The matcher on a text of the pattern followed by no digit: it takes
    the whole text. *)
Lemma rmatch_region_text (c d1 d2 post : string) :
  chrom_token c = true -> digits d1 = true -> digits d2 = true ->
  no_leading_digit post = true ->
  rmatch region_re (c +:+ ":" +:+ d1 +:+ "-" +:+ d2 +:+ post) Some = Some post.
Proof.
  intros Hc Hd1 Hd2 Hpost. unfold region_re.
  set (tail := Cat (Cls (Ascii.eqb ":")) (Cat (Star (Cls is_digit))
                 (Cat (Cls (Ascii.eqb "-")) (Star (Cls is_digit))))).
  assert (Htail : rmatch tail (":" +:+ d1 +:+ "-" +:+ d2 +:+ post) Some = Some post).
  { unfold tail. rewrite str_app_cons, str_app_nil_l. cbn [rmatch]. cbn [Ascii.eqb Bool.eqb].
    apply rmatch_digits_run; [exact Hd1 | reflexivity |].
    rewrite str_app_cons, str_app_nil_l. cbn [rmatch Ascii.eqb Bool.eqb].
    apply rmatch_digits_run; [exact Hd2 | exact Hpost | reflexivity]. }
  change (rmatch (Cat ?a tail) ?s Some) with (rmatch a s (fun s' => rmatch tail s' Some)).
  cbn [rmatch].
  apply chrom_token_cases in Hc as [-> | [-> | Hd]].
  - rewrite str_app_cons, str_app_nil_l. cbn [is_XY Ascii.eqb Bool.eqb orb].
    change (rmatch tail (":" +:+ d1 +:+ "-" +:+ d2 +:+ post) Some) with
      (rmatch tail (":" +:+ d1 +:+ "-" +:+ d2 +:+ post) Some).
    now rewrite Htail.
  - rewrite str_app_cons, str_app_nil_l. cbn [is_XY Ascii.eqb Bool.eqb orb].
    now rewrite Htail.
  - assert (Hfirst : match c +:+ ":" +:+ d1 +:+ "-" +:+ d2 +:+ post with
                     | String a s' => if is_XY a then rmatch tail s' Some else None
                     | EmptyString => None
                     end = None).
    { destruct c as [|a c].
      - reflexivity.
      - rewrite str_app_cons. unfold digits in Hd. cbn in Hd.
        apply andb_prop in Hd as [Ha _]. now rewrite (is_digit_not_XY a Ha). }
    rewrite Hfirst.
    change (star_loop ?b ?k (String.length ?s) ?s)
      with (rmatch (Star (Cls is_digit)) s k).
    apply rmatch_digits_run; [exact Hd | reflexivity | exact Htail].
Qed.

Lemma re_match_region_text (c d1 d2 post : string) :
  chrom_token c = true -> digits d1 = true -> digits d2 = true ->
  no_leading_digit post = true ->
  re_match region_re (c +:+ ":" +:+ d1 +:+ "-" +:+ d2 +:+ post)
    = Some (c +:+ ":" +:+ d1 +:+ "-" +:+ d2).
Proof.
  intros Hc Hd1 Hd2 Hpost. unfold re_match.
  rewrite rmatch_region_text by assumption.
  replace (c +:+ ":" +:+ d1 +:+ "-" +:+ d2 +:+ post)
    with ((c +:+ ":" +:+ d1 +:+ "-" +:+ d2) +:+ post)
    by now rewrite !str_app_assoc.
  now rewrite str_length_app, Nat.add_sub, substring_app_prefix.
Qed.

Lemma re_search_head (r : regex) (s m : string) :
  re_match r s = Some m -> re_search r s = Some m.
Proof. intros Hm. destruct s; cbn [re_search]; now rewrite Hm. Qed.

(** Where the search found its match, the matcher run at that place gives
    the same text. *)
Lemma re_search_at (r : regex) (s m : string) :
  re_search r s = Some m ->
  exists pre post, s = pre +:+ m +:+ post /\ re_match r (m +:+ post) = Some m.
Proof.
  revert m. induction s as [|c s IH]; intros m; cbn [re_search].
  - destruct (re_match r "") as [m0|] eqn:Hm; [|discriminate].
    intros [= <-]. destruct (re_match_sound r "" m0 Hm) as (rest & Hs & _).
    exists "", rest. rewrite str_app_nil_l, <- Hs. auto.
  - destruct (re_match r (String c s)) as [m0|] eqn:Hm.
    + intros [= <-]. destruct (re_match_sound r _ m0 Hm) as (rest & Hs & _).
      exists "", rest. rewrite str_app_nil_l, <- Hs. auto.
    + intros Hs. apply IH in Hs as (pre & post & -> & Hm').
      exists (String c pre), post. now rewrite str_app_cons.
Qed.

Lemma span_digits (s : string) :
  exists ds rest, s = ds +:+ rest /\ digits ds = true /\ no_leading_digit rest = true.
Proof.
  unfold digits. induction s as [|c s (ds & rest & -> & Hds & Hrest)].
  - exists "", "". auto.
  - destruct (is_digit c) eqn:Hc.
    + exists (String c ds), rest. rewrite str_app_cons. cbn. rewrite Hc, Hds. auto.
    + exists "", (String c (ds +:+ rest)). cbn. rewrite Hc. auto.
Qed.

Lemma first_colon (a b x y : string) :
  no_colon a = true -> no_colon b = true ->
  a +:+ ":" +:+ x = b +:+ ":" +:+ y -> a = b.
Proof.
  unfold no_colon. revert b. induction a as [|c a IH]; intros [|c' b] Ha Hb Heq;
    rewrite ?str_app_cons, ?str_app_nil_l in Heq.
  - reflexivity.
  - injection Heq as <- _. cbn in Hb. discriminate.
  - injection Heq as -> _. cbn in Ha. discriminate.
  - injection Heq as -> Heq. cbn in Ha, Hb.
    apply andb_prop in Ha as [_ Ha]. apply andb_prop in Hb as [_ Hb].
    f_equal. eauto.
Qed.

Lemma ends_with_cons (p : ascii -> bool) (a : ascii) (s : string) :
  ends_with p (String a s) = if String.eqb s "" then p a else ends_with p s.
Proof. destruct s; reflexivity. Qed.

Lemma ends_with_forall (p : ascii -> bool) (s : string) :
  str_forallb p s = true -> s <> "" -> ends_with p s = true.
Proof.
  induction s as [|c s IH]; [congruence|]. cbn [str_forallb].
  intros [Hc Hs]%andb_prop _. rewrite ends_with_cons.
  destruct s as [|c' s]; [exact Hc|]. apply IH; [exact Hs | discriminate].
Qed.

Lemma token_of_chrom (stem c : string) : token_of stem c = true -> chrom_token c = true.
Proof.
  unfold token_of, chrom_token.
  destruct (String.eqb c "X"); [reflexivity|]. destruct (String.eqb c "Y"); [reflexivity|].
  cbn. now intros [[-> _]%andb_prop _]%andb_prop.
Qed.

Lemma token_of_tail (a : ascii) (stem c : string) :
  token_of (String a stem) c = true -> token_of stem c = true.
Proof.
  unfold token_of.
  destruct (String.eqb c "X"); [reflexivity|]. destruct (String.eqb c "Y"); [reflexivity|].
  cbn [orb]. rewrite !ends_with_cons.
  destruct stem as [|b stem]; [|now cbn].
  cbn. intros [[-> _]%andb_prop _]%andb_prop. now destruct (String.eqb c "").
Qed.

(** No match starts inside the text that the pattern cannot take. *)
Lemma re_match_in_stem (a : ascii) (stem c rest : string) :
  no_colon (String a stem) = true ->
  token_of (String a stem) c = true ->
  re_match region_re (String a stem +:+ c +:+ ":" +:+ rest) = None.
Proof.
  intros Hstem Htok.
  destruct (re_match region_re _) as [m|] eqn:Hm; [exfalso|reflexivity].
  apply re_match_sound in Hm as (rest' & Heq & Hmm).
  apply matches_region_re in Hmm as (c' & d1 & d2 & -> & Hc' & _ & _).
  pose proof (token_of_chrom _ _ Htok) as Hc.
  assert (Hcc : c' = String a stem +:+ c).
  { symmetry. apply (first_colon _ _ rest (d1 +:+ "-" +:+ d2 +:+ rest')).
    - unfold no_colon in *. rewrite str_forallb_app, Hstem.
      now apply chrom_token_no_colon.
    - now apply chrom_token_no_colon.
    - rewrite (str_app_assoc (String a stem) c), Heq. now rewrite !str_app_assoc. }
  subst c'. unfold token_of in Htok.
  apply chrom_token_cases in Hc' as [Hx | [Hy | Hd]].
  - rewrite str_app_cons in Hx. injection Hx as -> Hx.
    destruct stem; [|discriminate]. rewrite str_app_nil_l in Hx. subst c.
    vm_compute in Htok. discriminate.
  - rewrite str_app_cons in Hy. injection Hy as -> Hy.
    destruct stem; [|discriminate]. rewrite str_app_nil_l in Hy. subst c.
    vm_compute in Htok. discriminate.
  - unfold digits in Hd. rewrite str_forallb_app in Hd.
    apply andb_prop in Hd as [Hs Hd].
    rewrite (ends_with_forall is_digit (String a stem) Hs) in Htok by discriminate.
    assert (Hnx : String.eqb c "X" = false).
    { destruct (String.eqb_spec c "X") as [->|]; [discriminate Hd | reflexivity]. }
    assert (Hny : String.eqb c "Y" = false).
    { destruct (String.eqb_spec c "Y") as [->|]; [discriminate Hd | reflexivity]. }
    rewrite Hnx, Hny in Htok. cbn in Htok. rewrite andb_false_r in Htok. discriminate.
Qed.

Lemma re_search_region (stem c d1 d2 post : string) :
  no_colon stem = true -> token_of stem c = true ->
  digits d1 = true -> digits d2 = true -> no_leading_digit post = true ->
  re_search region_re (stem +:+ c +:+ ":" +:+ d1 +:+ "-" +:+ d2 +:+ post)
    = Some (c +:+ ":" +:+ d1 +:+ "-" +:+ d2).
Proof.
  intros Hstem Htok Hd1 Hd2 Hpost. induction stem as [|a stem IH].
  - rewrite str_app_nil_l. apply re_search_head, re_match_region_text; try assumption.
    now apply token_of_chrom in Htok.
  - rewrite str_app_cons. cbn [re_search]. rewrite <- str_app_cons.
    rewrite re_match_in_stem by assumption.
    apply IH.
    + unfold no_colon in *. cbn in Hstem. now apply andb_prop in Hstem as [_ Hstem].
    + now apply token_of_tail in Htok.
Qed.

(** X11.  What [format_region] returns for a string is a text of the form
    chrom:start-end that stands in the string: the chromosome is [X], [Y]
    or a run of digits, start and end are runs of digits, and any of the
    runs may be empty. *)
Theorem format_region_text (s m : string) :
  format_region (RStr s) = Ret m -> occurs_in m s /\ region_text m.
Proof.
  unfold format_region. cbn.
  destruct (re_search region_re s) as [m0|] eqn:Hs; cbn; [|discriminate].
  intros [= <-]. apply re_search_sound in Hs as (pre & post & -> & Hm & _).
  split; [now exists pre, post | now apply matches_region_re].
Qed.

(** X12.  [format_region] is idempotent on strings: what it returns, it
    returns unchanged when applied again. *)
Theorem format_region_idempotent (s m : string) :
  format_region (RStr s) = Ret m -> format_region (RStr m) = Ret m.
Proof.
  intros Hfmt.
  assert (Htext : region_text m).
  { revert Hfmt. unfold format_region. cbn.
    destruct (re_search region_re s) as [m0|] eqn:Hs; cbn; [|discriminate].
    intros [= <-]. apply re_search_sound in Hs as (pre & post & -> & Hm & _).
    now apply matches_region_re. }
  destruct Htext as (c & d1 & d2 & -> & Hc & Hd1 & Hd2).
  pose proof (re_match_region_text c d1 d2 "" Hc Hd1 Hd2 eq_refl) as Hm.
  rewrite str_app_nil_r in Hm. apply re_search_head in Hm.
  unfold format_region. cbn. now rewrite Hm.
Qed.

(** X13.  The end coordinate is never cut short: the text that follows
    the returned region in the string does not start with a digit. *)
Theorem format_region_end_complete (s m : string) :
  format_region (RStr s) = Ret m ->
  exists pre post, s = pre +:+ m +:+ post /\ no_leading_digit post = true.
Proof.
  unfold format_region. cbn.
  destruct (re_search region_re s) as [m0|] eqn:Hs; cbn; [|discriminate].
  intros [= <-].
  destruct (re_search_at _ _ _ Hs) as (pre & post & -> & Hat).
  exists pre, post. split; [reflexivity|].
  destruct (re_match_sound _ _ _ Hat) as (_ & _ & Hm).
  apply matches_region_re in Hm as (c & d1 & d2 & -> & Hc & Hd1 & Hd2).
  destruct (span_digits post) as (ds & rest & -> & Hds & Hrest).
  assert (Hlong : re_match region_re
                    (c +:+ ":" +:+ d1 +:+ "-" +:+ (d2 +:+ ds) +:+ rest)
                  = Some (c +:+ ":" +:+ d1 +:+ "-" +:+ d2 +:+ ds)).
  { apply re_match_region_text; try assumption.
    unfold digits in *. now rewrite str_forallb_app, Hd2, Hds. }
  rewrite !str_app_assoc in Hat. rewrite !str_app_assoc in Hlong.
  rewrite Hlong in Hat. injection Hat as Hat.
  do 4 apply String.app_inj in Hat.
  rewrite <- (str_app_nil_r d2) in Hat at 2. apply String.app_inj in Hat.
  subst ds. now rewrite str_app_nil_l.
Qed.

(** X14.  Of the text before the colon, [format_region] keeps what the
    pattern can take, an [X] or [Y] or the run of digits at its end, and
    drops the rest without notice: [chr7:1-2] gives [7:1-2], but [MT:1-2]
    gives [:1-2], a region without a chromosome, and [GL000192.1:1-2] gives
    [1:1-2], a region on another chromosome. *)
Theorem format_region_keeps_token (stem c d1 d2 post : string) :
  no_colon stem = true ->
  token_of stem c = true ->
  digits d1 = true ->
  digits d2 = true ->
  no_leading_digit post = true ->
  format_region (RStr (stem +:+ c +:+ ":" +:+ d1 +:+ "-" +:+ d2 +:+ post))
    = Ret (c +:+ ":" +:+ d1 +:+ "-" +:+ d2).
Proof.
  intros Hstem Htok Hd1 Hd2 Hpost. unfold format_region. cbn.
  now rewrite re_search_region.
Qed.

(** X15.  A sequence is read by position: an integer in the first place is
    a [TypeError] (it cannot be joined to the colon), fewer than three
    elements are an [IndexError], and elements after the third are
    ignored. *)
Theorem format_region_sequence :
  (forall z rest, format_region (RSeq (VInt z :: rest)) = Raise TypeError)
  /\ (forall xs,
        (length xs < 3)%nat ->
        (forall z rest, xs <> VInt z :: rest) ->
        format_region (RSeq xs) = Raise IndexError)
  /\ (forall chrom start stop rest,
        format_region (RSeq (VStr chrom :: start :: stop :: rest))
          = Ret (chrom +:+ ":" +:+ py_str start +:+ "-" +:+ py_str stop)).
Proof.
  split; [reflexivity|]. split.
  - intros xs Hlen Hstr.
    destruct xs as [|[c|z] rest];
      [reflexivity| |exfalso; eapply Hstr; reflexivity].
    destruct rest as [|a [|b rest]]; cbn in Hlen; try lia; reflexivity.
  - intros chrom start stop rest. unfold format_region. cbn.
    now rewrite !str_app_assoc.
Qed.

(** ** The query string *)

Lemma quote_char_chars (c : ascii) : str_forallb url_char (quote_char c) = true.
Proof. destruct c as [[] [] [] [] [] [] [] []]; vm_compute; reflexivity. Qed.

Lemma quote_plus_chars (s : string) : str_forallb url_char (quote_plus s) = true.
Proof.
  induction s as [|c s IH]; [reflexivity|]. cbn [quote_plus].
  now rewrite str_forallb_app, quote_char_chars, IH.
Qed.

Lemma count_char_app (a : ascii) (s1 s2 : string) :
  count_char a (s1 +:+ s2) = (count_char a s1 + count_char a s2)%nat.
Proof.
  induction s1 as [|c s1 IH]; [reflexivity|].
  rewrite str_app_cons. cbn. rewrite IH. lia.
Qed.

Lemma count_char_absent (p : ascii -> bool) (a : ascii) (s : string) :
  p a = false -> str_forallb p s = true -> count_char a s = 0%nat.
Proof.
  intros Ha. induction s as [|c s IH]; [reflexivity|]. cbn.
  intros [Hc Hs]%andb_prop. rewrite (IH Hs).
  destruct (Ascii.eqb_spec c a) as [->|]; [congruence | reflexivity].
Qed.

Lemma count_char_pair (k v : string) :
  count_char "=" (quote_plus k +:+ "=" +:+ quote_plus v) = 1%nat
  /\ count_char "&" (quote_plus k +:+ "=" +:+ quote_plus v) = 0%nat.
Proof.
  rewrite !count_char_app.
  rewrite !(count_char_absent url_char "=" (quote_plus _) eq_refl (quote_plus_chars _)).
  rewrite !(count_char_absent url_char "&" (quote_plus _) eq_refl (quote_plus_chars _)).
  split; reflexivity.
Qed.

Lemma count_char_concat (pairs : list string) :
  Forall (fun x => count_char "=" x = 1%nat /\ count_char "&" x = 0%nat) pairs ->
  count_char "=" (String.concat "&" pairs) = length pairs
  /\ count_char "&" (String.concat "&" pairs) = (length pairs - 1)%nat.
Proof.
  induction 1 as [|x pairs [Hx1 Hx2] Hall [IH1 IH2]]; [split; reflexivity|].
  destruct pairs as [|y pairs]; [cbn; split; [exact Hx1 | exact Hx2]|].
  change (String.concat "&" (x :: y :: pairs))
    with (x +:+ "&" +:+ String.concat "&" (y :: pairs)).
  rewrite !count_char_app, IH1, IH2, Hx1, Hx2. cbn. split; lia.
Qed.

Section QueryString.
Variable py_str_seq : list string -> string.

Lemma urlencode_pair_counts (doseq : bool) (kv : string * ParamValue) :
  Forall (fun x => count_char "=" x = 1%nat /\ count_char "&" x = 0%nat)
         (urlencode_pair py_str_seq doseq kv).
Proof.
  unfold urlencode_pair. destruct kv as [k [v|xs]]; cbn [fst snd].
  - repeat constructor; apply count_char_pair.
  - destruct doseq.
    + induction xs as [|x xs IH]; cbn [map]; constructor;
        [apply count_char_pair | exact IH].
    + repeat constructor; apply count_char_pair.
Qed.

(** X16.  The query string of a call.  Parameters that are absent or
    empty add nothing to the endpoint, not even a question mark.  Otherwise
    the query follows a question mark and has exactly one [=] for each pair
    it encodes and an [&] only between two pairs, whatever characters the
    names and values contain: a value cannot add a parameter. *)
Theorem query_string_shape (endpoint : string) (params : option Params) (doseq : bool) :
  let pairs := concat (map (urlencode_pair py_str_seq doseq) (default [] params)) in
  (params_truthy params = false -> with_query py_str_seq endpoint params doseq = endpoint)
  /\ (params_truthy params = true ->
      exists q,
        with_query py_str_seq endpoint params doseq = endpoint +:+ "?" +:+ q
        /\ count_char "=" q = length pairs
        /\ count_char "&" q = (length pairs - 1)%nat).
Proof.
  intros pairs. unfold with_query. split; intros ->; [reflexivity|].
  exists (urlencode py_str_seq (default [] params) doseq). split; [reflexivity|].
  unfold urlencode. fold pairs. apply count_char_concat.
  subst pairs. induction (default [] params) as [|kv q IH]; cbn [map concat].
  - constructor.
  - apply Forall_app. split; [apply urlencode_pair_counts | exact IH].
Qed.

End QueryString.

(** ** The query methods, continued *)

Section Queries.
Context {F : Type} `{PyFloat F}.
Variable json_loads : string -> option (Json F).
Variable py_str_seq : list string -> string.
Variable transport : list Request -> Request -> HttpResult F.
Variable py_str_other : Json F -> string.

Local Abbreviation pra := (perform_rest_action json_loads py_str_seq transport).

Lemma get_ensembl_id_state (fuel : nat) (species symbol : string)
    (only_stable_id : bool) (st : State F) :
  (get_ensembl_id json_loads py_str_seq transport fuel species symbol only_stable_id st).2
  = (pra fuel ("/xrefs/symbol/" +:+ species +:+ "/" +:+ symbol) None
       (Some [("object_type", PStr "gene")]) false st).2.
Proof.
  unfold get_ensembl_id, St.bind.
  destruct (pra fuel _ None _ false st) as [[genes|e] st1]; [|reflexivity].
  destruct (truthy genes); [|reflexivity].
  destruct only_stable_id; [|reflexivity].
  unfold St.lift, St.ret. destruct (getitem_int genes 0) as [g0|e]; [|reflexivity].
  destruct (getitem_str g0 "id"); reflexivity.
Qed.

(** X17.  What [get_ensembl_id] makes of a true answer of the dispatcher.
    Without the flag it returns the answer as it is.  With the flag and a
    list that starts with an object, it returns the [id] of that object and
    ignores the rest of the list; an object without [id] is a [KeyError], a
    first element that is no object is a [TypeError], and an answer that is
    an object, not a list, is a [KeyError]. *)
Theorem get_ensembl_id_result (fuel : nat) (species symbol : string)
    (st st' : State F) (genes : Json F) :
  pra fuel ("/xrefs/symbol/" +:+ species +:+ "/" +:+ symbol) None
      (Some [("object_type", PStr "gene")]) false st = (Ret genes, st') ->
  truthy genes = true ->
  let stable := get_ensembl_id json_loads py_str_seq transport fuel species symbol true st in
  get_ensembl_id json_loads py_str_seq transport fuel species symbol false st
    = (Ret genes, st')
  /\ (forall kvs rest, genes = JArr (JObj kvs :: rest) ->
        stable = (match assoc_get "id" kvs with
                  | Some id => Ret id
                  | None => Raise KeyError
                  end, st'))
  /\ (forall x rest, genes = JArr (x :: rest) -> (forall kvs, x <> JObj kvs) ->
        stable = (Raise TypeError, st'))
  /\ (forall kvs, genes = JObj kvs -> stable = (Raise KeyError, st')).
Proof.
  intros Hcall Htrue stable. subst stable.
  unfold get_ensembl_id, St.bind. rewrite Hcall, Htrue.
  split; [reflexivity|]. split; [|split].
  - intros kvs rest ->. cbn. now destruct (assoc_get "id" kvs).
  - intros x rest -> Hx. cbn. destruct x; try reflexivity. now destruct (Hx kvs).
  - intros kvs ->. reflexivity.
Qed.

(** X18.  [get_ensembl_id] asks for
    [/xrefs/symbol/{species}/{symbol}?object_type=gene]; species and symbol
    go into the path as they are, unquoted. *)
Theorem get_ensembl_id_request (fuel : nat) (species symbol : string)
    (only_stable_id : bool) (st : State F) :
  exists d post,
    trace (get_ensembl_id json_loads py_str_seq transport (S fuel) species symbol
             only_stable_id st).2
      = trace st ++ throttle_events st
          ++ ERequest {| url := server (self st) +:+ "/xrefs/symbol/" +:+ species
                                  +:+ "/" +:+ symbol +:+ "?object_type=gene";
                         req_headers := d |} :: post.
Proof.
  rewrite get_ensembl_id_state.
  destruct (perform_rest_action_trace json_loads py_str_seq transport fuel
              ("/xrefs/symbol/" +:+ species +:+ "/" +:+ symbol) None
              (Some [("object_type", PStr "gene")]) false st I)
    as (d & post & Htr & _).
  exists d, post. rewrite Htr.
  change (with_query py_str_seq ?e (Some [("object_type", PStr "gene")]) false)
    with (e +:+ "?" +:+ "object_type=gene").
  now rewrite !str_app_assoc.
Qed.

(** X19.  [get_variants] without a stable ID: when the symbol lookup
    returns nothing true (no answer, an empty list), [get_variants] returns
    [None] and sends no second request; when the lookup raises, so does
    [get_variants]. *)
Theorem get_variants_unresolved (fuel : nat) (species symbol : string)
    (st st' : State F) :
  (forall genes,
     pra fuel ("/xrefs/symbol/" +:+ species +:+ "/" +:+ symbol) None
         (Some [("object_type", PStr "gene")]) false st = (Ret genes, st') ->
     truthy genes = false ->
     get_variants json_loads py_str_seq transport py_str_other fuel species symbol st
       = (Ret JNull, st'))
  /\ (forall e,
        get_ensembl_id json_loads py_str_seq transport fuel species symbol true st
          = (Raise e, st') ->
        get_variants json_loads py_str_seq transport py_str_other fuel species symbol st
          = (Raise e, st')).
Proof.
  split.
  - intros genes Hcall Hfalse.
    unfold get_variants, get_ensembl_id, St.bind. now rewrite Hcall, Hfalse.
  - intros e Hid. unfold get_variants, St.bind. now rewrite Hid.
Qed.

(** X20.  [get_variants] with a stable ID: when the lookup returns a list
    whose first object has a non-empty string as [id], [get_variants] is the
    dispatcher's call for [/overlap/id/{id}?feature=variation] made next,
    and it returns what that call returns, an empty list included (it has
    no test that turns it into [None]). *)
Theorem get_variants_overlap (fuel : nat) (species symbol : string)
    (st st1 : State F) (kvs : list (string * Json F)) (rest : list (Json F))
    (id : string) :
  pra (S fuel) ("/xrefs/symbol/" +:+ species +:+ "/" +:+ symbol) None
      (Some [("object_type", PStr "gene")]) false st
    = (Ret (JArr (JObj kvs :: rest)), st1) ->
  assoc_get "id" kvs = Some (JStr id) ->
  id <> "" ->
  let r := get_variants json_loads py_str_seq transport py_str_other (S fuel)
             species symbol st in
  r = pra (S fuel) ("/overlap/id/" +:+ id) None
          (Some [("feature", PStr "variation")]) false st1
  /\ exists d post,
       trace r.2 = trace st1 ++ throttle_events st1
         ++ ERequest {| url := server (self st1) +:+ "/overlap/id/" +:+ id
                                 +:+ "?feature=variation";
                        req_headers := d |} :: post.
Proof.
  intros Hcall Hid Hne r.
  assert (Hr : r = pra (S fuel) ("/overlap/id/" +:+ id) None
                       (Some [("feature", PStr "variation")]) false st1).
  { subst r. unfold get_variants, get_ensembl_id.
    unfold St.bind at 1 2. rewrite Hcall. cbn [truthy].
    unfold St.bind at 1 2, St.lift. cbn [getitem_int lookup list_lookup getitem_str].
    rewrite Hid. unfold St.ret at 1. cbn [truthy py_format].
    apply String.eqb_neq in Hne. rewrite Hne. cbn [negb].
    unfold St.bind, St.ret.
    now destruct (pra (S fuel) _ None _ false st1) as [[v|e] st2]. }
  split; [exact Hr|]. rewrite Hr.
  destruct (perform_rest_action_trace json_loads py_str_seq transport fuel
              ("/overlap/id/" +:+ id) None (Some [("feature", PStr "variation")])
              false st1 I) as (d & post & Htr & _).
  exists d, post. rewrite Htr.
  change (with_query py_str_seq ?e (Some [("feature", PStr "variation")]) false)
    with (e +:+ "?" +:+ "feature=variation").
  now rewrite !str_app_assoc.
Qed.

(** X21.  [get_ensembl_info], [get_overlap] and [get_ensembl_id] never
    return a false value other than [None]: an empty list or object, a zero
    or an empty string from the server reaches the caller as [None]. *)
Theorem false_results_are_none :
  (forall fuel identifier expand st v,
     (get_ensembl_info json_loads py_str_seq transport fuel identifier expand st).1
       = Ret v -> truthy v = false -> v = JNull)
  /\ (forall fuel species region features st v,
        (get_overlap json_loads py_str_seq transport fuel species region features st).1
          = Ret v -> truthy v = false -> v = JNull)
  /\ (forall fuel species symbol st v,
        (get_ensembl_id json_loads py_str_seq transport fuel species symbol false st).1
          = Ret v -> truthy v = false -> v = JNull).
Proof.
  split; [|split].
  - intros fuel identifier expand st v. unfold get_ensembl_info.
    rewrite bind_or_none. unfold or_none. cbn [fst].
    destruct (pra fuel _ None None false st).1 as [w|e]; [|discriminate].
    destruct (truthy w) eqn:Hw; intros [= <-]; [congruence | reflexivity].
  - intros fuel species region features st v. unfold get_overlap.
    unfold St.bind at 1, St.lift.
    destruct (format_region region) as [r|e]; [|discriminate].
    rewrite bind_or_none. unfold or_none. cbn [fst].
    destruct (pra fuel _ None _ true st).1 as [w|e]; [|discriminate].
    destruct (truthy w) eqn:Hw; intros [= <-]; [congruence | reflexivity].
  - intros fuel species symbol st v. unfold get_ensembl_id, St.bind.
    destruct (pra fuel _ None _ false st) as [[w|e] st1]; [|discriminate].
    destruct (truthy w) eqn:Hw; cbn; intros [= <-]; [congruence | reflexivity].
Qed.

(** X22.  The line of a variant.  For an object with the six fields the
    line is [name:start-end:strand ==> id (consequence)], other fields being
    ignored; an object that lacks one of the six is a [KeyError], and a
    value that is no object is a [TypeError]. *)
Theorem variant_line_fields :
  (forall kvs name start stop strand id consequence,
     assoc_get "seq_region_name" kvs = Some name ->
     assoc_get "start" kvs = Some start ->
     assoc_get "end" kvs = Some stop ->
     assoc_get "strand" kvs = Some strand ->
     assoc_get "id" kvs = Some id ->
     assoc_get "consequence_type" kvs = Some consequence ->
     variant_line py_str_other (JObj kvs)
       = Ret (py_format py_str_other name +:+ ":" +:+ py_format py_str_other start
              +:+ "-" +:+ py_format py_str_other stop +:+ ":"
              +:+ py_format py_str_other strand +:+ " ==> "
              +:+ py_format py_str_other id +:+ " ("
              +:+ py_format py_str_other consequence +:+ ")"))
  /\ (forall kvs field,
        In field variant_fields ->
        assoc_get field kvs = None ->
        variant_line py_str_other (JObj kvs) = Raise KeyError)
  /\ (forall v, (forall kvs, v <> JObj kvs) ->
        variant_line py_str_other v = Raise TypeError).
Proof.
  split; [|split].
  - intros kvs name start stop strand id consequence H1 H2 H3 H4 H5 H6.
    unfold variant_line, format_field. rewrite H1, H2, H3, H4, H5, H6. reflexivity.
  - intros kvs field Hin Hnone. unfold variant_line, format_field.
    cbn in Hin.
    destruct Hin as [<-|[<-|[<-|[<-|[<-|[<-|[]]]]]]]; rewrite ?Hnone;
      repeat (match goal with
              | |- context [assoc_get ?f kvs] =>
                  destruct (assoc_get f kvs); cbn; try reflexivity
              end);
      try (rewrite Hnone; reflexivity); try discriminate.
  - intros v Hv. destruct v; try reflexivity. now destruct (Hv kvs).
Qed.

End Queries.

(** ** The further properties on mocked servers *)

(** [successful_request] on a server that delivers [[7]]. *)
Lemma successful_request_witness :
  let r := Run.dispatch (Demo.always_ok "[7]") 1 "/lookup/id/ENSG00000157764"
             None None false Demo.state0 in
  r.1 = Ret (JArr [JInt 7]) /\ req_count (self r.2) = 1.
Proof.
  destruct (successful_request Demo.json_loads Demo.py_str_seq (Demo.always_ok "[7]")
              0 "/lookup/id/ENSG00000157764" None None false Demo.state0
              0%Qc "[7]" (JArr [JInt 7])) as (Hret & Hcount & _).
  - exact I.
  - intros req. reflexivity.
  - reflexivity.
  - discriminate.
  - reflexivity.
  - split; [exact Hret | exact Hcount].
Defined.

(** [empty_body_is_none] on a server that delivers nothing. *)
Lemma empty_body_is_none_witness :
  let r := Run.dispatch (Demo.always_ok "") 1 "/lookup/id/ENSG00000157764"
             None None false Demo.state0 in
  r.1 = Ret JNull /\ req_count (self r.2) = 1.
Proof.
  destruct (empty_body_is_none Demo.json_loads Demo.py_str_seq (Demo.always_ok "")
              0 "/lookup/id/ENSG00000157764" None None false Demo.state0 0%Qc)
    as (Hret & Hcount).
  - exact I.
  - intros req. reflexivity.
  - split; [exact Hret | exact Hcount].
Defined.

(** [undecodable_body_raises] on a page that is no JSON and on a byte that
    is no UTF-8. *)
Lemma undecodable_body_raises_witness :
  (Run.dispatch (Demo.always_ok "<html>") 1 "/a" None None false Demo.state0).1
    = Raise JSONDecodeError
  /\ (Run.dispatch (Demo.always_ok (String "255" "")) 1 "/a" None None false
        Demo.state0).1 = Raise UnicodeDecodeError.
Proof.
  split.
  - destruct (undecodable_body_raises Demo.json_loads Demo.py_str_seq
                (Demo.always_ok "<html>") 0 "/a" None None false Demo.state0
                0%Qc "<html>") as (_ & Hjson & _).
    + exact I.
    + intros req. reflexivity.
    + apply Hjson; [reflexivity | discriminate | reflexivity].
  - destruct (undecodable_body_raises Demo.json_loads Demo.py_str_seq
                (Demo.always_ok (String "255" "")) 0 "/a" None None false Demo.state0
                0%Qc (String "255" "")) as (Hutf & _).
    + exact I.
    + intros req. reflexivity.
    + apply Hutf. reflexivity.
Defined.

(** [busy_without_retry_after] on a 429 answer without headers. *)
Lemma busy_without_retry_after_witness :
  let r := Run.dispatch (Scenario.busy_with []) 5 "/a" None None false Demo.state0 in
  r.1 = Ret JNull /\ length (trace r.2) = 1%nat.
Proof.
  destruct (busy_without_retry_after Demo.json_loads Demo.py_str_seq
              (Scenario.busy_with []) 4 "/a" None None false Demo.state0
              0%Qc "Too Many Requests" []) as (Hret & _ & d & Htrace).
  - exact I.
  - intros req. reflexivity.
  - reflexivity.
  - split; [exact Hret|]. unfold Run.dispatch. rewrite Htrace. reflexivity.
Defined.


(** [transport_failure_propagates] on a server that cannot be reached. *)
Lemma transport_failure_propagates_witness :
  let r := Run.dispatch Scenario.unreachable 1 "/a" None None false Demo.state0 in
  r.1 = Raise (URLError "Connection refused") /\ req_count (self r.2) = 0.
Proof.
  destruct (transport_failure_propagates Demo.json_loads Demo.py_str_seq
              Scenario.unreachable 0 "/a" None None false Demo.state0
              0%Qc (URLError "Connection refused")) as (Hret & _ & Hcount).
  - exact I.
  - intros req. reflexivity.
  - split; [exact Hret | exact Hcount].
Defined.


(** [caller_content_type_kept] on a caller that asks for XML. *)
Lemma caller_content_type_kept_witness :
  heap (Run.dispatch (Demo.always_ok "[7]") 1 "/a" (Some 0%nat) None false
          Scenario.with_xml).2 = heap Scenario.with_xml.
Proof.
  destruct (caller_content_type_kept Demo.json_loads Demo.py_str_seq
              (Demo.always_ok "[7]") 0 "/a" 0%nat {["Content-Type" := "text/xml"]}
              "text/xml" None false Scenario.with_xml) as (Hheap & _).
  - reflexivity.
  - reflexivity.
  - exact Hheap.
Defined.

(** [fresh_headers_when_absent] on a caller that holds a dictionary. *)
Lemma fresh_headers_when_absent_witness :
  heap (Run.dispatch (Demo.always_ok "[7]") 1 "/a" None None false Run.saturated).2
    !! 0%nat = Some ∅.
Proof.
  destruct (fresh_headers_when_absent Demo.json_loads Demo.py_str_seq
              (Demo.always_ok "[7]")) as [Hkeep _].
  apply (Hkeep 1%nat "/a" None false Run.saturated 0%nat ∅). reflexivity.
Defined.

(** [request_counter_bounded] on a fresh client and a busy server. *)
Lemma request_counter_bounded_witness :
  0 <= req_count (self (Run.dispatch (Scenario.busy_for 2 "[7]") 3 "/a" None None
                          false Demo.state0).2) <= 15.
Proof.
  destruct (request_counter_bounded Demo.json_loads Demo.py_str_seq
              (Scenario.busy_for 2 "[7]")) as [Hcall _].
  destruct (Hcall 3%nat "/a" None None false Demo.state0) as [Hc _].
  - vm_compute. discriminate.
  - vm_compute. split; discriminate.
  - exact Hc.
Defined.

(** [query_string_shape] on a value that holds an ampersand and an equals
    sign: two pairs, one ampersand. *)
Lemma query_string_shape_witness :
  exists q,
    with_query Demo.py_str_seq "/a" (Some [("feature", PSeq ["a&b=c"; "d"])]) true
      = "/a" +:+ "?" +:+ q
    /\ count_char "=" q = 2%nat /\ count_char "&" q = 1%nat.
Proof.
  destruct (query_string_shape Demo.py_str_seq "/a"
              (Some [("feature", PSeq ["a&b=c"; "d"])]) true) as [_ Hq].
  destruct (Hq eq_refl) as (q & Hw & He & Ha).
  exists q. split; [exact Hw | split; [exact He | exact Ha]].
Defined.

(** [format_region_text] on a region with a prefix and a strand. *)
Lemma format_region_text_witness :
  occurs_in "7:140424943-140624564" "chr7:140424943-140624564:-1"
  /\ region_text "7:140424943-140624564".
Proof.
  apply (format_region_text "chr7:140424943-140624564:-1"). reflexivity.
Defined.

(** [format_region_idempotent] on the same region. *)
Lemma format_region_idempotent_witness :
  format_region (RStr "7:140424943-140624564") = Ret "7:140424943-140624564".
Proof.
  apply (format_region_idempotent "chr7:140424943-140624564:-1"). reflexivity.
Defined.

(** [format_region_end_complete] on the same region. *)
Lemma format_region_end_complete_witness :
  exists pre post,
    "chr7:140424943-140624564:-1" = pre +:+ "7:140424943-140624564" +:+ post
    /\ no_leading_digit post = true.
Proof.
  apply format_region_end_complete. reflexivity.
Defined.

(** [format_region_keeps_token] on a mitochondrial region, which loses
    its chromosome, and on a scaffold, which becomes chromosome 1. *)
Lemma format_region_keeps_token_witness :
  format_region (RStr "MT:100-200") = Ret ":100-200"
  /\ format_region (RStr "GL000192.1:100-200") = Ret "1:100-200".
Proof.
  split.
  - apply (format_region_keeps_token "MT" "" "100" "200" ""); reflexivity.
  - apply (format_region_keeps_token "GL000192." "1" "100" "200" ""); reflexivity.
Defined.

(** [format_region_sequence] on a pair. *)
Lemma format_region_sequence_witness :
  format_region (RSeq [VStr "7"; VInt 140424943]) = Raise IndexError.
Proof.
  destruct format_region_sequence as (_ & Hshort & _).
  apply Hshort; [cbn; lia | discriminate].
Defined.

(** [get_ensembl_id_result] on a server that knows two genes for the
    symbol: the stable ID is that of the first. *)
Lemma get_ensembl_id_result_witness :
  (get_ensembl_id Scenario.json_loads Demo.py_str_seq Scenario.gene_server 1
     "human" "BRAF" true Demo.state0).1 = Ret (JStr "ENSG00000157764").
Proof.
  destruct (get_ensembl_id_result Scenario.json_loads Demo.py_str_seq
              Scenario.gene_server 1 "human" "BRAF" Demo.state0
              (perform_rest_action Scenario.json_loads Demo.py_str_seq
                 Scenario.gene_server 1 "/xrefs/symbol/human/BRAF" None
                 (Some [("object_type", PStr "gene")]) false Demo.state0).2
              (JArr [Scenario.braf; JObj [("id", JStr "LRG_299")]]))
    as (_ & Hfirst & _).
  - vm_compute. reflexivity.
  - reflexivity.
  - rewrite (Hfirst _ _ eq_refl). reflexivity.
Defined.

(** [get_variants_unresolved] on a server that knows no gene: one request
    only. *)
Lemma get_variants_unresolved_witness :
  let r := get_variants Demo.json_loads Demo.py_str_seq (Demo.always_ok "[]")
             Scenario.py_str_other 1 "human" "NOSUCHGENE" Demo.state0 in
  r.1 = Ret JNull /\ length (requests_of (trace r.2)) = 1%nat.
Proof.
  destruct (get_variants_unresolved Demo.json_loads Demo.py_str_seq
              (Demo.always_ok "[]") Scenario.py_str_other 1 "human" "NOSUCHGENE"
              Demo.state0
              (perform_rest_action Demo.json_loads Demo.py_str_seq (Demo.always_ok "[]")
                 1 "/xrefs/symbol/human/NOSUCHGENE" None
                 (Some [("object_type", PStr "gene")]) false Demo.state0).2)
    as [Hnone _].
  rewrite (Hnone (JArr [])); [split; reflexivity | vm_compute; reflexivity | reflexivity].
Defined.

(** [get_variants_overlap] on the server that knows the gene: the second
    request asks for the variants of its stable ID. *)
Lemma get_variants_overlap_witness :
  let r := get_variants Scenario.json_loads Demo.py_str_seq Scenario.gene_server
             Scenario.py_str_other 1 "human" "BRAF" Demo.state0 in
  r.1 = Ret (JArr [JObj [("id", JStr "rs1")]])
  /\ map url (requests_of (trace r.2))
     = ["http://rest.ensembl.org//xrefs/symbol/human/BRAF?object_type=gene";
        "http://rest.ensembl.org//overlap/id/ENSG00000157764?feature=variation"].
Proof.
  destruct (get_variants_overlap Scenario.json_loads Demo.py_str_seq
              Scenario.gene_server Scenario.py_str_other 0 "human" "BRAF" Demo.state0
              (perform_rest_action Scenario.json_loads Demo.py_str_seq
                 Scenario.gene_server 1 "/xrefs/symbol/human/BRAF" None
                 (Some [("object_type", PStr "gene")]) false Demo.state0).2
              [("id", JStr "ENSG00000157764"); ("type", JStr "gene")]
              [JObj [("id", JStr "LRG_299")]] "ENSG00000157764") as [Hr _].
  - vm_compute. reflexivity.
  - reflexivity.
  - discriminate.
  - cbv zeta in Hr |- *. rewrite Hr. vm_compute. split; reflexivity.
Defined.

(** [false_results_are_none] on a lookup answered with an empty object. *)
Lemma false_results_are_none_witness :
  (get_ensembl_info Demo.json_loads Demo.py_str_seq (Demo.always_ok "{}") 1
     "ENSG00000157764" false Demo.state0).1 = Ret JNull.
Proof.
  destruct (false_results_are_none Demo.json_loads Demo.py_str_seq (Demo.always_ok "{}"))
    as [Hinfo _].
  destruct (get_ensembl_info Demo.json_loads Demo.py_str_seq (Demo.always_ok "{}") 1
              "ENSG00000157764" false Demo.state0).1 as [v|e] eqn:Hv.
  - f_equal. apply (Hinfo 1%nat "ENSG00000157764" false Demo.state0 v Hv).
    vm_compute in Hv. injection Hv as <-. reflexivity.
  - vm_compute in Hv. discriminate Hv.
Defined.

(** [variant_line_fields] on a variant of BRAF, and on an object without
    the consequence. *)
Lemma variant_line_fields_witness :
  variant_line Scenario.py_str_other Scenario.variant
    = Ret "7:140753336-140753336:1 ==> rs113488022 (missense_variant)"
  /\ variant_line Scenario.py_str_other Scenario.braf = Raise KeyError.
Proof.
  destruct (variant_line_fields Scenario.py_str_other) as (Hline & Hmissing & _).
  split.
  - unfold Scenario.variant.
    rewrite (Hline _ (JStr "7") (JInt 140753336) (JInt 140753336) (JInt 1)
               (JStr "rs113488022") (JStr "missense_variant"));
      reflexivity.
  - apply (Hmissing _ "consequence_type"); [cbn; auto 10 | reflexivity].
Defined.
